(** * useSafeOptionsFetcher: a shallow embedding of [dist/index.es.js]

    The hook keeps three pieces of React state ([options],
    [filteredOptions], [isLoading]) and two refs ([searchGuard],
    [requestCounter]).  Its functions are embedded as functions on an
    explicit [Hook] state; the [await] of the remote call splits
    [getOptionsFromAPI] into the part that runs when it is called and the
    continuation that runs when the promise settles.  The value of
    [options] that a function sees is the one captured by its closure, so
    it is an explicit argument here.  Of the debounced entry point only
    the function that its timer invokes is modelled.  The built-ins whose
    results depend on the engine (case mapping, number formatting,
    collation, sorting) are parameters of the development. *)

From Stdlib Require Import List String Ascii ZArith Bool Arith Lia.
From Stdlib Require Import Sorted Permutation DecimalString.
Import ListNotations.

Local Open Scope string_scope.
Local Open Scope Z_scope.
Local Open Scope list_scope.

(* ------------------------------------------------------------------ *)
(** * JavaScript values *)

(** The values that occur in options.  Numbers are restricted to
    integers; an object carries the identity of its reference and its own
    enumerable properties in insertion order (an object has no two
    properties of the same name). *)
#[warnings="-register-all"]
Inductive JSValue : Type :=
| JUndefined
| JNull
| JBool (b : bool)
| JNum (n : Z)
| JStr (s : string)
| JObj (ref : nat) (fields : list (string * JSValue)).

(** An option is a plain object; only its properties matter. *)
Definition Obj : Type := list (string * JSValue).

(** Abrupt completion: the only exception the modelled code can raise by
    itself is a TypeError; [Rejected] is a failure of the injected
    service. *)
Inductive Error : Type := TypeError | Rejected.

Inductive Completion (A : Type) : Type :=
| Normal (a : A)
| Throw (e : Error).
Arguments Normal {A} a.
Arguments Throw {A} e.

Definition bind {A B} (c : Completion A) (k : A -> Completion B) : Completion B :=
  match c with
  | Normal a => k a
  | Throw e => Throw e
  end.

Notation "x <- c ;; k" := (bind c (fun x => k))
  (at level 61, c at next level, right associativity).

(** [o[k]] on an object: the property, or [undefined]. *)
Fixpoint getProp (o : Obj) (k : string) : JSValue :=
  match o with
  | [] => JUndefined
  | (k', v) :: o' => if String.eqb k' k then v else getProp o' k
  end.

Definition value (o : Obj) : JSValue := getProp o "value".
Definition label (o : Obj) : JSValue := getProp o "label".

(** ToBoolean. *)
Definition truthy (v : JSValue) : bool :=
  match v with
  | JUndefined | JNull => false
  | JBool b => b
  | JNum n => negb (n =? 0)
  | JStr s => negb (String.eqb s "")
  | JObj _ _ => true
  end.

(** SameValueZero, the key equality of [Map]. *)
Definition sameValueZero (a b : JSValue) : bool :=
  match a, b with
  | JUndefined, JUndefined => true
  | JNull, JNull => true
  | JBool x, JBool y => Bool.eqb x y
  | JNum x, JNum y => x =? y
  | JStr x, JStr y => String.eqb x y
  | JObj r _, JObj r' _ => Nat.eqb r r'
  | _, _ => false
  end.

(* ------------------------------------------------------------------ *)
(** * What the host provides *)

(** The built-ins the code calls and whose results are the engine's:
    [String.prototype.toLowerCase], [Number.prototype.toString],
    [String.prototype.localeCompare] and [Array.prototype.sort] (on an
    array of options, with a comparator that may throw and may return
    [undefined]).  The development is parametric in them. *)
Class Host : Type := {
  toLowerCase : string -> string;
  numberToString : Z -> string;
  localeCompare : string -> string -> Z;
  arraySort : (Obj -> Obj -> Completion (option Z)) -> list Obj -> Completion (list Obj)
}.

(** What [Array.prototype.sort] makes of the comparator's result:
    [undefined] converts to NaN, which counts as [+0]. *)
Definition sortOrder (r : option Z) : Z :=
  match r with
  | Some z => z
  | None => 0
  end.

(* ------------------------------------------------------------------ *)
(** * Two sorting procedures *)

Section Sorting.
Context {A : Type} (comparefn : A -> A -> Completion (option Z)).

(** A stable insertion sort.  It is one procedure that meets what
    ECMAScript requires of [Array.prototype.sort]; it serves to run the
    model where the comparator is consistent, and the result therefore
    the same for every engine. *)
Fixpoint insertInOrder (x : A) (l : list A) : Completion (list A) :=
  match l with
  | [] => Normal [x]
  | y :: l' =>
      r <- comparefn x y ;;
      if sortOrder r <=? 0 then Normal (x :: l)
      else t <- insertInOrder x l' ;; Normal (y :: t)
  end.

Fixpoint insertionSort (l : list A) : Completion (list A) :=
  match l with
  | [] => Normal []
  | x :: l' => s <- insertionSort l' ;; insertInOrder x s
  end.





End Sorting.

(* ------------------------------------------------------------------ *)
(** * Strings *)

(** Strings are sequences of code units. *)

(** [kw.startsWith(p)]. *)
Definition startsWith (kw p : string) : bool := String.prefix p kw.

(** [s.includes(sub)]. *)
Fixpoint includes (s sub : string) : bool :=
  (String.prefix sub s ||
   match s with
   | EmptyString => false
   | String _ s' => includes s' sub
   end)%bool.

(** The characters of a string, as [Object.values] enumerates them. *)
Fixpoint chars (s : string) : list JSValue :=
  match s with
  | EmptyString => []
  | String c s' => JStr (String c EmptyString) :: chars s'
  end.

(** The object has an own property named ["toString"].  No value of
    [JSValue] is a function, so that calling it is a TypeError. *)
Definition ownToString (fields : list (string * JSValue)) : bool :=
  existsb (fun kv => String.eqb (fst kv) "toString") fields.

Section Coordinator.
Context {JS : Host}.

(** [v.toString()].  On [undefined] and [null] the method call is a
    TypeError; on an object it is [Object.prototype.toString], unless the
    object has an own property of that name. *)
Definition toStringMethod (v : JSValue) : Completion string :=
  match v with
  | JUndefined | JNull => Throw TypeError
  | JBool true => Normal "true"
  | JBool false => Normal "false"
  | JNum n => Normal (numberToString n)
  | JStr s => Normal s
  | JObj _ fields =>
      if ownToString fields then Throw TypeError else Normal "[object Object]"
  end.

(** ToString of an argument that may be [undefined] (the result of a
    short-circuited optional chain). *)
Definition argToString (v : option string) : string :=
  match v with
  | Some s => s
  | None => "undefined"
  end.

(** [v?.toString()]: [undefined] when [v] is nullish. *)
Definition optToString (v : JSValue) : Completion (option string) :=
  match v with
  | JUndefined | JNull => Normal None
  | _ => s <- toStringMethod v ;; Normal (Some s)
  end.

(* ------------------------------------------------------------------ *)
(** * hasKeyword *)

(** [Object.values(obj)]. *)
Definition objectValues (obj : JSValue) : Completion (list JSValue) :=
  match obj with
  | JUndefined | JNull => Throw TypeError
  | JBool _ | JNum _ => Normal []
  | JStr s => Normal (chars s)
  | JObj _ fields => Normal (map snd fields)
  end.

(** The callback of [some]. *)
Definition valueHasKeyword (keyword : string) (v : JSValue) : bool :=
  match v with
  | JStr s => includes (toLowerCase s) (toLowerCase keyword)
  | _ => false
  end.

(** [hasKeyword(obj = {}, keyword = "")]: with a non-empty keyword a
    boolean, with the empty keyword [obj] itself.  The default applies to
    [undefined] only, not to [null]. *)
Definition hasKeyword (obj : JSValue) (keyword : string) : Completion JSValue :=
  let obj := match obj with JUndefined => JObj 0 [] | _ => obj end in
  if truthy (JStr keyword)
  then vs <- objectValues obj ;; Normal (JBool (existsb (valueHasKeyword keyword) vs))
  else Normal obj.

(* ------------------------------------------------------------------ *)
(** * sortArray *)

(** The comparator of [sortArray]:
    [a.label?.toString().localeCompare(b.label?.toString())].  When
    [a.label] is nullish the whole chain is [undefined] and the argument
    is not evaluated. *)
Definition compareLabels (a b : Obj) : Completion (option Z) :=
  la <- optToString (label a) ;;
  match la with
  | None => Normal None
  | Some sa =>
      lb <- optToString (label b) ;;
      Normal (Some (localeCompare sa (argToString lb)))
  end.

(** [arr.sort(comparator)]: the sort of the engine. *)
Definition sortArray (arr : list Obj) : Completion (list Obj) :=
  arraySort compareLabels arr.

(* ---------------------------------------------------------------- *)
(** * Deduplication through [Map] *)

(** [m.set(k, v)] on an insertion-ordered map: an existing key keeps its
    place and takes the new value. *)
Fixpoint mapSet (m : list (JSValue * Obj)) (k : JSValue) (v : Obj)
  : list (JSValue * Obj) :=
  match m with
  | [] => [(k, v)]
  | (k', v') :: m' =>
      if sameValueZero k' k then (k', v) :: m'
      else (k', v') :: mapSet m' k v
  end.

Definition newMap (entries : list (JSValue * Obj)) : list (JSValue * Obj) :=
  fold_left (fun m kv => mapSet m (fst kv) (snd kv)) entries [].

(** [Array.from(new Map(merged.map(item => [item.value, item])).values())]. *)
Definition uniqueByValue (merged : list Obj) : list Obj :=
  map snd (newMap (map (fun item => (value item, item)) merged)).

(* ---------------------------------------------------------------- *)
(** * Configuration and state of the hook *)

(** The arguments of [useSafeOptionsFetcher].  [APIService] records
    whether a service function was passed. *)
Record Config : Type := {
  APIService : bool;
  customKey : string;
  customPayload : option Obj;
  customDataName : option string
}.

(** The payload handed to the service. *)
Inductive Payload : Type :=
| PKeyword (keyword : string)
| PObject (o : Obj).

Fixpoint setProp (o : Obj) (k : string) (v : JSValue) : Obj :=
  match o with
  | [] => [(k, v)]
  | (k', v') :: o' =>
      if String.eqb k' k then (k', v) :: o' else (k', v') :: setProp o' k v
  end.

(** [!customPayload ? keyword : {[customKey]: keyword, ...customPayload}]. *)
Definition makePayload (cfg : Config) (keyword : string) : Payload :=
  match customPayload cfg with
  | None => PKeyword keyword
  | Some extra =>
      PObject (fold_left (fun o kv => setProp o (fst kv) (snd kv)) extra
                 [(customKey cfg, JStr keyword)])
  end.

(** [searchGuard.current]: [{}] or [{prevKeyword, stop: true}]. *)
Record SearchGuard : Type := {
  prevKeyword : option string;
  stop : bool
}.

Definition emptyGuard : SearchGuard := {| prevKeyword := None; stop := false |}.

Definition armedGuard (keyword : string) : SearchGuard :=
  {| prevKeyword := Some keyword; stop := true |}.

(** [!searchGuard.current?.stop ||
     !keyword.startsWith(searchGuard.current?.prevKeyword)]. *)
Definition guardAllows (g : SearchGuard) (keyword : string) : bool :=
  (negb (stop g) || negb (startsWith keyword (argToString (prevKeyword g))))%bool.

Record Hook : Type := {
  options : list Obj;
  filteredOptions : list Obj;
  isLoading : bool;
  searchGuard : SearchGuard;
  requestCounter : nat
}.

Definition setOptions (v : list Obj) (h : Hook) : Hook :=
  {| options := v; filteredOptions := filteredOptions h; isLoading := isLoading h;
     searchGuard := searchGuard h; requestCounter := requestCounter h |}.

Definition setFilteredOptions (v : list Obj) (h : Hook) : Hook :=
  {| options := options h; filteredOptions := v; isLoading := isLoading h;
     searchGuard := searchGuard h; requestCounter := requestCounter h |}.

Definition setIsLoading (v : bool) (h : Hook) : Hook :=
  {| options := options h; filteredOptions := filteredOptions h; isLoading := v;
     searchGuard := searchGuard h; requestCounter := requestCounter h |}.

Definition setSearchGuard (v : SearchGuard) (h : Hook) : Hook :=
  {| options := options h; filteredOptions := filteredOptions h;
     isLoading := isLoading h; searchGuard := v;
     requestCounter := requestCounter h |}.

Definition setRequestCounter (v : nat) (h : Hook) : Hook :=
  {| options := options h; filteredOptions := filteredOptions h;
     isLoading := isLoading h; searchGuard := searchGuard h;
     requestCounter := v |}.

(** A call of the service whose promise has not settled: what the
    suspended [getOptionsFromAPI] holds in its closure. *)
Record Pending : Type := {
  keywordOf : string;
  optionsOf : list Obj;
  currentRequest : nat
}.

(** The hook together with its environment: the suspended calls and the
    log of payloads the service was called with. *)
Record World : Type := {
  hook : Hook;
  pending : list Pending;
  calls : list Payload
}.

Definition withHook (h : Hook) (w : World) : World :=
  {| hook := h; pending := pending w; calls := calls w |}.

Definition initialHook : Hook :=
  {| options := []; filteredOptions := []; isLoading := false;
     searchGuard := emptyGuard; requestCounter := 0 |}.

Definition initialWorld : World :=
  {| hook := initialHook; pending := []; calls := [] |}.

(* ---------------------------------------------------------------- *)
(** * The filter predicate *)

(** [customDataName ? ele[customDataName] : {value: ele.value, label: ele.label}]. *)
Definition selected (cfg : Config) (ele : Obj) : JSValue :=
  let literal := JObj 0 [("value", value ele); ("label", label ele)] in
  match customDataName cfg with
  | Some name => if truthy (JStr name) then getProp ele name else literal
  | None => literal
  end.

(** The callback of both [filter] calls. *)
Definition matchesKeyword (cfg : Config) (keyword : string) (ele : Obj)
  : Completion bool :=
  r <- hasKeyword (selected cfg ele) keyword ;; Normal (truthy r).

Fixpoint filterOptions (cfg : Config) (keyword : string) (l : list Obj)
  : Completion (list Obj) :=
  match l with
  | [] => Normal []
  | ele :: l' =>
      b <- matchesKeyword cfg keyword ele ;;
      t <- filterOptions cfg keyword l' ;;
      Normal (if b then ele :: t else t)
  end.

(* ---------------------------------------------------------------- *)
(** * getOptionsFromAPI, filterOptionsLocally, getOptions *)

(** [getOptionsFromAPI] up to its [await].  [opts] is the [options] of
    the closure.  When the service is called the function suspends;
    otherwise it runs to its end. *)
Definition getOptionsFromAPI (cfg : Config) (opts : list Obj) (keyword : string)
  (w : World) : World :=
  let h1 := setIsLoading true (hook w) in
  let h2 := setRequestCounter (S (requestCounter h1)) h1 in
  let current := requestCounter h2 in
  if (APIService cfg && guardAllows (searchGuard h2) keyword)%bool then
    {| hook := h2;
       pending := pending w ++
         [{| keywordOf := keyword; optionsOf := opts; currentRequest := current |}];
       calls := calls w ++ [makePayload cfg keyword] |}
  else
    withHook (if Nat.eqb current (requestCounter h2) then setIsLoading false h2 else h2) w.

(** The rest of [getOptionsFromAPI], from the point where the awaited
    promise settles with [r].  A rejection is rethrown by [await]; there
    is no handler. *)
Definition afterAwait (cfg : Config) (p : Pending) (r : Completion (list Obj))
  (h : Hook) : Completion Hook :=
  res <- r ;;
  if negb (Nat.eqb (currentRequest p) (requestCounter h)) then Normal h
  else
    h' <- (if Nat.ltb 0 (List.length res) then
             let merged := optionsOf p ++ res in
             let unique := uniqueByValue merged in
             sorted <- sortArray unique ;;
             filtered <- filterOptions cfg (keywordOf p) sorted ;;
             Normal (setSearchGuard emptyGuard
                       (setFilteredOptions filtered (setOptions sorted h)))
           else
             Normal (setSearchGuard (armedGuard (keywordOf p))
                       (setFilteredOptions [] h))) ;;
    Normal (if Nat.eqb (currentRequest p) (requestCounter h')
            then setIsLoading false h' else h').

Definition filterOptionsLocally (cfg : Config) (opts : list Obj) (keyword : string)
  (w : World) : Completion World :=
  matched <- filterOptions cfg keyword opts ;;
  if Nat.ltb 0 (List.length matched) then
    Normal (withHook (setSearchGuard emptyGuard
                        (setIsLoading false
                           (setFilteredOptions matched (hook w)))) w)
  else if guardAllows (searchGuard (hook w)) keyword then
    Normal (getOptionsFromAPI cfg opts keyword w)
  else Normal w.

Definition getOptions (cfg : Config) (opts : list Obj) (keyword : string)
  (w : World) : Completion World :=
  if Nat.ltb 0 (List.length opts) then filterOptionsLocally cfg opts keyword w
  else Normal (getOptionsFromAPI cfg opts keyword w).

(** What runs when the timer of [debouncedGetOptions] fires.  [useRef]
    keeps the debounced function of the first render, and the [getOptions]
    it wraps holds the [options] of that render, the empty list.  The
    timer itself is not modelled. *)
Definition debouncedGetOptions (cfg : Config) (keyword : string) (w : World)
  : Completion World :=
  getOptions cfg [] keyword w.

(* ---------------------------------------------------------------- *)
(** * Interleavings *)

(** What can happen to a hook: a call of the [getOptions] of the latest
    render, a call of the [getOptions] of an earlier render (whose
    closure holds the [options] of that render), and the settling of a
    pending call of the service, identified by its request number. *)
Inductive Event : Type :=
| Lookup (keyword : string)
| LookupFrom (opts : list Obj) (keyword : string)
| Settle (request : nat) (r : Completion (list Obj)).

Definition isRequest (request : nat) (p : Pending) : bool :=
  Nat.eqb (currentRequest p) request.

(** An exception leaves the state as it was: both places that can throw
    come before the first assignment. *)
Definition orElse {X : Type} (c : Completion X) (x : X) : X :=
  match c with
  | Normal y => y
  | Throw _ => x
  end.

Definition step (cfg : Config) (w : World) (ev : Event) : World :=
  match ev with
  | Lookup keyword => orElse (getOptions cfg (options (hook w)) keyword w) w
  | LookupFrom opts keyword => orElse (getOptions cfg opts keyword w) w
  | Settle request r =>
      match find (isRequest request) (pending w) with
      | None => w
      | Some p =>
          let w1 := {| hook := hook w;
                       pending := filter (fun q => negb (isRequest request q)) (pending w);
                       calls := calls w |} in
          withHook (orElse (afterAwait cfg p r (hook w1)) (hook w1)) w1
      end
  end.

Definition run (cfg : Config) (evs : list Event) (w : World) : World :=
  fold_left (step cfg) evs w.

End Coordinator.

(* ------------------------------------------------------------------ *)
(** * Vocabulary of the properties *)

Section Vocabulary.
Context {JS : Host}.



(** The label can be turned into text without an exception: it is not an
    object with an own [toString] property. *)
Definition printable (o : Obj) : Prop :=
  match label o with
  | JObj _ fields => ownToString fields = false
  | _ => True
  end.






(** The entries of a list that carry the value [v]. *)
Definition hasValue (v : JSValue) (o : Obj) : bool := sameValueZero (value o) v.

Definition entriesFor (v : JSValue) (l : list Obj) : list Obj := filter (hasValue v) l.

(** The entry for [v] that was merged last. *)
Definition lastWithValue (v : JSValue) (l : list Obj) : option Obj :=
  find (hasValue v) (rev l).

(** The filter predicate as a boolean, where it does not throw. *)
Definition matchesb (cfg : Config) (keyword : string) (ele : Obj) : bool :=
  orElse (matchesKeyword cfg keyword ele) false.

(** The strings the predicate searches in an option: the string-valued
    entries of the object selected from it. *)
Definition searchedStrings (cfg : Config) (ele : Obj) : list string :=
  match objectValues (selected cfg ele) with
  | Normal vs =>
      flat_map (fun v => match v with JStr s => [s] | _ => [] end) vs
  | Throw _ => []
  end.

(** A case-insensitive substring match of the keyword in one of them. *)
Definition Matches (cfg : Config) (keyword : string) (ele : Obj) : Prop :=
  exists s, In s (searchedStrings cfg ele) /\
            includes (toLowerCase s) (toLowerCase keyword) = true.


(** The object selected from the option is not [null]. *)
Definition selectable (cfg : Config) (ele : Obj) : Prop := selected cfg ele <> JNull.

(** The filter can read the option: it is selectable, or the keyword is
    empty and [Object.values] is not called. *)
Definition readable (cfg : Config) (keyword : string) (ele : Obj) : Prop :=
  keyword = "" \/ selectable cfg ele.

(** A call of [getOptions] gets as far as [getOptionsFromAPI]: its
    [options] is empty, or nothing in it matches and the guard lets the
    keyword through. *)
Definition reachesAPI (cfg : Config) (opts : list Obj) (keyword : string)
  (w : World) : bool :=
  if Nat.ltb 0 (List.length opts) then
    match filterOptions cfg keyword opts with
    | Normal [] => guardAllows (searchGuard (hook w)) keyword
    | _ => false
    end
  else true.


(** What SameValueZero compares: a primitive itself, an object's
    reference. *)
Definition identity (v : JSValue) : JSValue :=
  match v with
  | JObj r _ => JObj r []
  | _ => v
  end.

(** Every key of the map is the value of the item stored under it. *)
Definition keyedByValue (m : list (JSValue * Obj)) : Prop :=
  Forall (fun e => sameValueZero (fst e) (value (snd e)) = true) m.

(** No pending call carries a request number from the future. *)
Definition pendingBounded (w : World) : Prop :=
  forall p, In p (pending w) -> (currentRequest p <= requestCounter (hook w))%nat.


(** What the filter selects from the option is [undefined] (and gets the
    default [{}]) or truthy. *)
Definition selectsTruthy (cfg : Config) (ele : Obj) : Prop :=
  selected cfg ele = JUndefined \/ truthy (selected cfg ele) = true.

(** The names of the properties of an object. *)
Definition keysOf (o : Obj) : list string := map fst o.

(** An event of a caller that only uses the [getOptions] of the latest
    render. *)
Definition freshEvent (ev : Event) : Prop :=
  match ev with
  | LookupFrom _ _ => False
  | _ => True
  end.

(** The closure of a pending call that is current holds the options of
    the state. *)
Definition closuresCurrent (w : World) : Prop :=
  forall p, In p (pending w) ->
            currentRequest p = requestCounter (hook w) ->
            optionsOf p = options (hook w).

(** Some option of the list has the value [v]. *)
Definition carriesValue (l : list Obj) (v : JSValue) : Prop :=
  exists y, In y l /\ hasValue v y = true.

(** The cache is empty, the guard is armed with [K], and no pending call
    is current. *)
Definition deadPrefix (K : string) (w : World) : Prop :=
  options (hook w) = [] /\
  searchGuard (hook w) = armedGuard K /\
  forall p, In p (pending w) -> (currentRequest p < requestCounter (hook w))%nat.

(** A lookup of a keyword that starts with [K], from a closure with no
    options, or the settling of a call. *)
Definition blockedEvent (K : string) (ev : Event) : Prop :=
  match ev with
  | Lookup keyword => startsWith keyword K = true
  | LookupFrom opts keyword => opts = [] /\ startsWith keyword K = true
  | Settle _ _ => True
  end.

(** A string-valued [value] or [label] of the option contains the
    keyword, case-insensitively. *)
Definition valueOrLabelContains (keyword : string) (ele : Obj) : Prop :=
  exists s, (value ele = JStr s \/ label ele = JStr s) /\
            includes (toLowerCase s) (toLowerCase keyword) = true.

(** The lower-case form of every single character of [s] is shorter
    than the lower-case form of the keyword. *)
Definition charactersShorter (keyword s : string) : Prop :=
  Forall (fun v => match v with
                   | JStr c => (String.length (toLowerCase c) <
                                String.length (toLowerCase keyword))%nat
                   | _ => True
                   end) (chars s).

End Vocabulary.

(* ------------------------------------------------------------------ *)
(** * What ECMAScript requires of the host *)

(** [Array.prototype.sort] returns the elements it was given, in some
    order, and throws only what the comparator throws on two of them. *)
Class SortLaws (JS : Host) : Prop := {
  sort_permutes : forall comparefn l s,
    arraySort comparefn l = Normal s -> Permutation l s;
  sort_rethrows : forall comparefn l e,
    arraySort comparefn l = Throw e ->
    exists x y, In x l /\ In y l /\ comparefn x y = Throw e
}.




(* ------------------------------------------------------------------ *)
(** * Two hosts, for running the model *)

(** Case mapping of the ASCII range, decimal digits, comparison by code
    units: what JavaScript gives on the strings and numbers of the
    examples below (ASCII letters, integers below 10^21). *)
Definition asciiLowerChar (c : ascii) : ascii :=
  let n := nat_of_ascii c in
  if (Nat.leb 65 n && Nat.leb n 90)%bool then ascii_of_nat (n + 32) else c.

Fixpoint asciiLowerCase (s : string) : string :=
  match s with
  | EmptyString => EmptyString
  | String c s' => String (asciiLowerChar c) (asciiLowerCase s')
  end.

Definition decimalString (n : Z) : string := NilZero.string_of_int (Z.to_int n).

Definition codeUnitCompare (s t : string) : Z :=
  match String.compare s t with
  | Lt => -1
  | Eq => 0
  | Gt => 1
  end.

(** The host of the examples.  Its sort is the insertion sort; the
    examples that go through it sort options with distinct labels, on
    which every engine returns the same list. *)
#[local] Instance plainHost : Host :=
  {| toLowerCase := asciiLowerCase;
     numberToString := decimalString;
     localeCompare := codeUnitCompare;
     arraySort := insertionSort |}.


(* ------------------------------------------------------------------ *)
(** * The data of the examples *)

Definition defaultConfig : Config :=
  {| APIService := true; customKey := "keyword";
     customPayload := None; customDataName := None |}.

Definition apple : Obj := [("value", JNum 1); ("label", JStr "Apple")].
Definition banana : Obj := [("value", JNum 2); ("label", JStr "Banana")].

Definition zebra : Obj := [("value", JNum 3); ("label", JStr "Zebra")].
Definition pizza : Obj := [("value", JNum 3); ("label", JStr "Pizza")].

(** A local hit while a call is pending: the options are fetched, a call
    for ["zz"] goes to the service and stays pending (request 2), and then
    ["ap"] is looked up and answered from the cache. *)
Definition localHitTrace : list Event :=
  [Lookup ""; Settle 1 (Normal [apple; banana]); Lookup "zz"; Lookup "ap"].

(** A state with the guard armed: ["ab"] was fetched and nothing came
    back. *)
Definition armedWorld : World :=
  run defaultConfig [Lookup "ab"; Settle 1 (Normal [])] initialWorld.

(** The guard is armed with ["ab"] while ["Banana"] is cached. *)
Definition armedWithBanana : World :=
  run defaultConfig
    [Lookup ""; Settle 1 (Normal [banana]); Lookup "ab"; Settle 2 (Normal [])]
    initialWorld.

(** A configuration that filters on the [meta] property of the options. *)
Definition metaConfig : Config :=
  {| APIService := true; customKey := "keyword";
     customPayload := None; customDataName := Some "meta" |}.

Definition fig : Obj :=
  [("value", JNum 2); ("label", JStr "Fig"); ("meta", JObj 1 [("kind", JStr "fruit")])].
Definition date : Obj :=
  [("value", JNum 1); ("label", JStr "Date"); ("meta", JObj 2 [("kind", JStr "fruit")])].

Definition apricot : Obj := [("value", JNum 1); ("label", JStr "Apricot")].

Definition cachedWorld : World :=
  {| hook := setOptions [apple; banana] initialHook; pending := []; calls := [] |}.

(** An option with a further string-valued property. *)
Definition appleWithNote : Obj :=
  [("value", JNum 1); ("label", JStr "Apple"); ("note", JStr "tasty")].


(** A configuration that filters on the [note] property, and an option
    whose note is the empty string. *)
Definition noteConfig : Config :=
  {| APIService := true; customKey := "keyword";
     customPayload := None; customDataName := Some "note" |}.

Definition appleEmptyNote : Obj :=
  [("value", JNum 1); ("label", JStr "Apple"); ("note", JStr "")].

Definition emptyNoteWorld : World :=
  run noteConfig [Lookup "a"; Settle 1 (Normal [appleEmptyNote])] initialWorld.

Definition labelledA : Obj := [("value", JNum 1); ("label", JStr "a")].
Definition unlabelled : Obj := [("value", JNum 2)].

Definition customPayloadConfig : Config :=
  {| APIService := true; customKey := "q";
     customPayload := Some [("limit", JNum 10); ("lang", JStr "en")];
     customDataName := None |}.

Definition overridingConfig : Config :=
  {| APIService := true; customKey := "q";
     customPayload := Some [("limit", JNum 10); ("q", JStr "fixed")];
     customDataName := None |}.

Definition noServiceConfig : Config :=
  {| APIService := false; customKey := "keyword";
     customPayload := None; customDataName := None |}.

(** A configuration that filters on the [label] property, a string. *)
Definition labelConfig : Config :=
  {| APIService := true; customKey := "keyword";
     customPayload := None; customDataName := Some "label" |}.

Definition numbered : Obj := [("value", JNum 42); ("label", JNum 42)].

Definition appleNullMeta : Obj :=
  [("value", JNum 1); ("label", JStr "Apple"); ("meta", JNull)].


(** An option whose label is an object with an own, non-callable
    [toString]. *)
Definition oddLabel : Obj :=
  [("value", JNum 3); ("label", JObj 1 [("toString", JNum 1)])].

(** The trace of [localHitTrace], on which the pending call 2 is then
    rejected. *)
Definition rejectedAfterLocalHit : list Event :=
  localHitTrace ++ [Settle 2 (Throw Rejected)].

(* ------------------------------------------------------------------ *)
(** * Sorting *)

Section InsertionSortFacts.
Context {A : Type} (comparefn : A -> A -> Completion (option Z)).

Lemma insertInOrder_perm (x : A) (l s : list A) :
  insertInOrder comparefn x l = Normal s -> Permutation (x :: l) s.
Proof.
  revert s. induction l as [|y l IH]; simpl; intros s H.
  - inversion H. apply Permutation_refl.
  - destruct (comparefn x y) as [r|e]; simpl in H; [|discriminate].
    destruct (sortOrder r <=? 0).
    + inversion H. apply Permutation_refl.
    + destruct (insertInOrder comparefn x l) as [t|e]; simpl in H; [|discriminate].
      inversion H; subst.
      eapply perm_trans; [apply perm_swap|].
      apply perm_skip. now apply IH.
Qed.

Lemma insertionSort_perm (l s : list A) :
  insertionSort comparefn l = Normal s -> Permutation l s.
Proof.
  revert s. induction l as [|x l IH]; simpl; intros s H.
  - inversion H. constructor.
  - destruct (insertionSort comparefn l) as [t|e]; simpl in H; [|discriminate].
    eapply perm_trans; [apply perm_skip, IH; reflexivity|].
    now apply insertInOrder_perm.
Qed.

Lemma insertInOrder_rethrows (x : A) (l : list A) (e : Error) :
  insertInOrder comparefn x l = Throw e ->
  exists y, In y l /\ comparefn x y = Throw e.
Proof.
  induction l as [|y l IH]; simpl; intros H; [discriminate|].
  destruct (comparefn x y) as [r|e0] eqn:Hc; simpl in H.
  - destruct (sortOrder r <=? 0); [discriminate|].
    destruct (insertInOrder comparefn x l) as [t|e1]; simpl in H; [discriminate|].
    destruct (IH H) as [z [Hz Hcz]]. eauto.
  - inversion H; subst. eauto.
Qed.

Lemma insertionSort_rethrows (l : list A) (e : Error) :
  insertionSort comparefn l = Throw e ->
  exists x y, In x l /\ In y l /\ comparefn x y = Throw e.
Proof.
  induction l as [|x l IH]; simpl; intros H; [discriminate|].
  destruct (insertionSort comparefn l) as [t|e0] eqn:Ht; simpl in H.
  - apply insertInOrder_rethrows in H. destruct H as [y [Hy Hc]].
    exists x, y. repeat split; auto. right.
    eapply Permutation_in; [apply Permutation_sym, insertionSort_perm; exact Ht|exact Hy].
  - destruct (IH H) as [a [b0 [Ha [Hb Hc]]]]. exists a, b0. auto.
Qed.

(** When the comparator decides a relation [R] on the elements that
    satisfy [P], sorting such elements leaves them in [R]-order. *)
Variables (P : A -> Prop) (R : A -> A -> Prop).
Hypothesis comparefn_decides : forall x y r,
  P x -> P y -> comparefn x y = Normal r ->
  (sortOrder r <= 0 -> R x y) /\ (0 < sortOrder r -> R y x).



End InsertionSortFacts.

(** The host of the examples is one that ECMAScript allows. *)
Lemma plainHost_SortLaws : SortLaws plainHost.
Proof.
  split.
  - intros comparefn l s. apply insertionSort_perm.
  - intros comparefn l e. apply insertionSort_rethrows.
Qed.





(* ------------------------------------------------------------------ *)
(** * The comparator *)

Lemma toStringMethod_TypeError {JS : Host} (v : JSValue) (e : Error) :
  toStringMethod v = Throw e -> e = TypeError.
Proof.
  destruct v as [| |[|]| | |r fields]; simpl; try discriminate;
    try (now intros [= <-]).
  destruct (ownToString fields); [now intros [= <-]|discriminate].
Qed.

Lemma optToString_printable {JS : Host} (o : Obj) :
  printable o -> exists r, optToString (label o) = Normal r.
Proof.
  unfold printable, optToString.
  destruct (label o) as [| |[|]| | |r fields]; simpl; eauto.
  intros ->. simpl. eauto.
Qed.


Lemma optToString_TypeError {JS : Host} (v : JSValue) (e : Error) :
  optToString v = Throw e -> e = TypeError.
Proof.
  unfold optToString.
  destruct v as [| |b| | |r fields]; try discriminate;
    destruct (toStringMethod _) eqn:E; simpl; try discriminate;
    intros [= <-]; now apply toStringMethod_TypeError in E.
Qed.

(** The optional chaining makes the comparator total on options whose
    labels can be turned into text. *)
Lemma compareLabels_returns {JS : Host} (a b : Obj) :
  printable a -> printable b -> exists r, compareLabels a b = Normal r.
Proof.
  intros Ha Hb. unfold compareLabels.
  destruct (optToString_printable a Ha) as [[sa|] ->]; simpl; eauto.
  destruct (optToString_printable b Hb) as [rb ->]; simpl; eauto.
Qed.

Lemma compareLabels_TypeError {JS : Host} (a b : Obj) (e : Error) :
  compareLabels a b = Throw e -> e = TypeError.
Proof.
  unfold compareLabels.
  destruct (optToString (label a)) as [[sa|]|ea] eqn:Ea; simpl; try discriminate.
  - destruct (optToString (label b)) as [rb|eb] eqn:Eb; simpl; try discriminate.
    intros [= <-]. now apply optToString_TypeError in Eb.
  - intros [= <-]. now apply optToString_TypeError in Ea.
Qed.




Lemma sortArray_TypeError {JS : Host} {L : SortLaws JS} (l : list Obj) (e : Error) :
  sortArray l = Throw e -> e = TypeError.
Proof.
  intros H. apply sort_rethrows in H. destruct H as [x [y [_ [_ H]]]].
  now apply compareLabels_TypeError in H.
Qed.

Lemma sortArray_returns {JS : Host} {L : SortLaws JS} (l : list Obj) :
  Forall printable l ->
  exists s, sortArray l = Normal s /\ Permutation l s.
Proof.
  intros Hl. destruct (sortArray l) as [s|e] eqn:Hs.
  - exists s. split; [reflexivity|]. now apply sort_permutes in Hs.
  - apply sort_rethrows in Hs. destruct Hs as [x [y [Hx [Hy Hc]]]].
    rewrite Forall_forall in Hl.
    destruct (compareLabels_returns x y (Hl x Hx) (Hl y Hy)) as [r Hr]. congruence.
Qed.


(* ------------------------------------------------------------------ *)
(** * Deduplication *)

Lemma sameValueZero_identity (a b : JSValue) :
  sameValueZero a b = true <-> identity a = identity b.
Proof.
  destruct a, b; simpl; split; intros H;
    try discriminate; try reflexivity; try (inversion H; fail).
  - apply Bool.eqb_prop in H. now subst.
  - inversion H; subst. apply Bool.eqb_reflx.
  - apply Z.eqb_eq in H. now subst.
  - inversion H; subst. apply Z.eqb_refl.
  - apply String.eqb_eq in H. now subst.
  - inversion H; subst. apply String.eqb_refl.
  - apply Nat.eqb_eq in H. now subst.
  - inversion H; subst. apply Nat.eqb_refl.
Qed.

Lemma sameValueZero_refl (a : JSValue) : sameValueZero a a = true.
Proof. now apply sameValueZero_identity. Qed.

Lemma sameValueZero_trans (a b c : JSValue) :
  sameValueZero a b = true -> sameValueZero b c = true -> sameValueZero a c = true.
Proof. rewrite !sameValueZero_identity. congruence. Qed.

Lemma sameValueZero_sym (a b : JSValue) : sameValueZero a b = sameValueZero b a.
Proof.
  destruct (sameValueZero a b) eqn:H1, (sameValueZero b a) eqn:H2; try reflexivity.
  - apply sameValueZero_identity in H1. symmetry in H1.
    apply sameValueZero_identity in H1. congruence.
  - apply sameValueZero_identity in H2. symmetry in H2.
    apply sameValueZero_identity in H2. congruence.
Qed.

(** Two values that one of them shares with a third are told apart or
    not together. *)
Lemma sameValueZero_congr (a b c : JSValue) :
  sameValueZero a b = true -> sameValueZero a c = sameValueZero b c.
Proof.
  intros H.
  destruct (sameValueZero a c) eqn:H1, (sameValueZero b c) eqn:H2; try reflexivity.
  - rewrite sameValueZero_sym in H.
    rewrite (sameValueZero_trans b a c H H1) in H2. discriminate.
  - rewrite (sameValueZero_trans a b c H H2) in H1. discriminate.
Qed.

Lemma mapSet_keyed (m : list (JSValue * Obj)) (x : Obj) :
  keyedByValue m -> keyedByValue (mapSet m (value x) x).
Proof.
  unfold keyedByValue. induction m as [|[k v] m IH]; simpl; intros H.
  - repeat constructor. apply sameValueZero_refl.
  - inversion H; subst. destruct (sameValueZero k (value x)) eqn:E.
    + constructor; assumption.
    + constructor; auto.
Qed.

Lemma mapSet_entries_same (m : list (JSValue * Obj)) (x : Obj) (v : JSValue) :
  keyedByValue m -> hasValue v x = true ->
  (List.length (entriesFor v (map snd m)) <= 1)%nat ->
  entriesFor v (map snd (mapSet m (value x) x)) = [x].
Proof.
  unfold keyedByValue, entriesFor, hasValue.
  induction m as [|[k y] m IH]; simpl; intros K Hx Hlen.
  - now rewrite Hx.
  - inversion K as [|? ? Hk K']; subst. simpl in Hk.
    destruct (sameValueZero k (value x)) eqn:E; simpl.
    + rewrite Hx. f_equal.
      assert (Hy : sameValueZero (value y) v = true).
      { rewrite sameValueZero_sym in Hk.
        rewrite (sameValueZero_congr (value y) k v Hk).
        rewrite (sameValueZero_congr k (value x) v E). exact Hx. }
      rewrite Hy in Hlen. simpl in Hlen.
      destruct (filter _ (map snd m)); [reflexivity|simpl in Hlen; lia].
    + assert (Hy : sameValueZero (value y) v = false).
      { rewrite sameValueZero_sym in Hk.
        rewrite (sameValueZero_congr (value y) k v Hk).
        rewrite sameValueZero_sym.
        rewrite sameValueZero_sym in Hx.
        rewrite (sameValueZero_congr v (value x) k Hx).
        rewrite sameValueZero_sym. exact E. }
      rewrite Hy in *. now apply IH.
Qed.

Lemma mapSet_entries_other (m : list (JSValue * Obj)) (x : Obj) (v : JSValue) :
  keyedByValue m -> hasValue v x = false ->
  entriesFor v (map snd (mapSet m (value x) x)) = entriesFor v (map snd m).
Proof.
  unfold keyedByValue, entriesFor, hasValue.
  induction m as [|[k y] m IH]; simpl; intros K Hx.
  - now rewrite Hx.
  - inversion K as [|? ? Hk K']; subst. simpl in Hk.
    destruct (sameValueZero k (value x)) eqn:E; simpl.
    + rewrite Hx.
      assert (Hy : sameValueZero (value y) v = false).
      { rewrite sameValueZero_sym in Hk.
        rewrite (sameValueZero_congr (value y) k v Hk).
        rewrite (sameValueZero_congr k (value x) v E). exact Hx. }
      now rewrite Hy.
    + rewrite (IH K' Hx). reflexivity.
Qed.

Lemma newMap_snoc (entries : list (JSValue * Obj)) (k : JSValue) (x : Obj) :
  newMap (entries ++ [(k, x)]) = mapSet (newMap entries) k x.
Proof. unfold newMap. now rewrite fold_left_app. Qed.

(** The map built from a list holds, for each value, the last item of the
    list with that value and nothing else. *)
Lemma newMap_entries (l : list Obj) :
  keyedByValue (newMap (map (fun item => (value item, item)) l)) /\
  forall v, entriesFor v (uniqueByValue l) =
            match lastWithValue v l with
            | Some y => [y]
            | None => []
            end.
Proof.
  unfold uniqueByValue, lastWithValue.
  induction l as [|x l IH] using rev_ind.
  - split; [constructor|reflexivity].
  - destruct IH as [K IH]. rewrite map_app. simpl. rewrite newMap_snoc. split.
    + now apply mapSet_keyed.
    + intros v. rewrite rev_app_distr. simpl.
      destruct (hasValue v x) eqn:Hx.
      * apply mapSet_entries_same; auto. rewrite IH.
        destruct (find (hasValue v) (rev l)); simpl; lia.
      * rewrite mapSet_entries_other; auto.
Qed.

Lemma uniqueByValue_incl (l : list Obj) (x : Obj) :
  In x (uniqueByValue l) -> In x l.
Proof.
  intros H.
  assert (Hin : In x (entriesFor (value x) (uniqueByValue l))).
  { apply filter_In. split; [exact H|]. apply sameValueZero_refl. }
  rewrite (proj2 (newMap_entries l)) in Hin. unfold lastWithValue in Hin.
  destruct (find (hasValue (value x)) (rev l)) as [y|] eqn:F; [|contradiction].
  destruct Hin as [->|[]]. apply find_some in F. apply in_rev. tauto.
Qed.

Lemma lastWithValue_found (v : JSValue) (l : list Obj) (x : Obj) :
  In x l -> hasValue v x = true ->
  exists y, lastWithValue v l = Some y /\ In y l /\ hasValue v y = true.
Proof.
  intros Hin Hx. unfold lastWithValue.
  destruct (find (hasValue v) (rev l)) as [y|] eqn:F.
  - exists y. apply find_some in F. rewrite <- in_rev in F. tauto.
  - rewrite (find_none _ _ F x) in Hx; [discriminate|]. now rewrite <- in_rev.
Qed.

(** An item of the later list hides every item of the earlier one. *)
Lemma lastWithValue_app (v : JSValue) (l1 l2 : list Obj) (x : Obj) :
  In x l2 -> hasValue v x = true ->
  lastWithValue v (l1 ++ l2) = lastWithValue v l2.
Proof.
  intros Hin Hx. destruct (lastWithValue_found v l2 x Hin Hx) as [y [Hy _]].
  unfold lastWithValue in *. rewrite rev_app_distr.
  induction (rev l2) as [|z t IH]; simpl in *; [discriminate|].
  destruct (hasValue v z); [reflexivity|auto].
Qed.

Lemma entriesFor_perm (v : JSValue) (l s : list Obj) :
  Permutation l s -> Permutation (entriesFor v l) (entriesFor v s).
Proof.
  unfold entriesFor. induction 1; simpl.
  - constructor.
  - destruct (hasValue v x); auto.
  - destruct (hasValue v x), (hasValue v y); auto. apply perm_swap.
  - eapply perm_trans; eauto.
Qed.

(* ------------------------------------------------------------------ *)
(** * The filter *)

Lemma selectable_default (cfg : Config) (ele : Obj) :
  customDataName cfg = None -> selectable cfg ele.
Proof. unfold selectable, selected. intros ->. discriminate. Qed.


Lemma matchesKeyword_returns {JS : Host} (cfg : Config) (keyword : string) (ele : Obj) :
  readable cfg keyword ele ->
  matchesKeyword cfg keyword ele = Normal (matchesb cfg keyword ele).
Proof.
  unfold readable, selectable, matchesb, matchesKeyword, hasKeyword.
  intros [->|H]; [reflexivity|].
  destruct (truthy (JStr keyword)); [|reflexivity].
  destruct (selected cfg ele); try reflexivity. contradiction.
Qed.

Lemma filterOptions_returns {JS : Host} (cfg : Config) (keyword : string) (l : list Obj) :
  Forall (readable cfg keyword) l ->
  filterOptions cfg keyword l = Normal (filter (matchesb cfg keyword) l).
Proof.
  induction 1 as [|ele l Hs _ IH]; simpl; [reflexivity|].
  rewrite (matchesKeyword_returns _ _ _ Hs), IH. reflexivity.
Qed.

(** With the empty keyword nothing is searched: no exception either. *)
Lemma filterOptions_empty_keyword {JS : Host} (cfg : Config) (l : list Obj) :
  filterOptions cfg "" l = Normal (filter (matchesb cfg "") l).
Proof.
  apply filterOptions_returns, Forall_forall. intros ele _. now left.
Qed.

Lemma filterOptions_incl {JS : Host} (cfg : Config) (keyword : string) (l m : list Obj) :
  filterOptions cfg keyword l = Normal m -> forall x, In x m -> In x l.
Proof.
  revert m. induction l as [|ele l IH]; simpl; intros m H x Hx.
  - inversion H; subst. contradiction.
  - destruct (matchesKeyword cfg keyword ele) as [b|e]; simpl in H; [|discriminate].
    destruct (filterOptions cfg keyword l) as [t|e]; simpl in H; [|discriminate].
    inversion H; subst. destruct b; simpl in *; [destruct Hx|]; eauto.
Qed.

Lemma existsb_valueHasKeyword {JS : Host} (keyword : string) (vs : list JSValue) :
  existsb (valueHasKeyword keyword) vs = true <->
  exists s, In s (flat_map (fun v => match v with JStr s => [s] | _ => [] end) vs) /\
            includes (toLowerCase s) (toLowerCase keyword) = true.
Proof.
  rewrite existsb_exists. split.
  - intros [v [Hin Hv]]. destruct v; try discriminate. exists s. split; [|exact Hv].
    apply in_flat_map. exists (JStr s). simpl. auto.
  - intros [s [Hin Hs]]. apply in_flat_map in Hin. destruct Hin as [v [Hin Hv]].
    exists v. split; [exact Hin|]. destruct v; simpl in Hv; try contradiction.
    destruct Hv as [->|[]]. exact Hs.
Qed.

(** For a non-empty keyword the predicate is the substring match. *)
Lemma matchesb_Matches {JS : Host} (cfg : Config) (keyword : string) (ele : Obj) :
  keyword <> "" -> selectable cfg ele ->
  matchesb cfg keyword ele = true <-> Matches cfg keyword ele.
Proof.
  intros Hk Hs. unfold matchesb, matchesKeyword, hasKeyword, Matches, searchedStrings.
  assert (Ht : truthy (JStr keyword) = true).
  { simpl. destruct keyword; [contradiction|reflexivity]. }
  rewrite Ht. unfold selectable in Hs.
  destruct (selected cfg ele); simpl; try contradiction;
    try (split; [discriminate|intros [s [[] _]]]);
    apply existsb_valueHasKeyword.
Qed.

(* ------------------------------------------------------------------ *)
(** * The continuation after [await] *)

Lemma afterAwait_stale {JS : Host} (cfg : Config) (p : Pending)
  (r : Completion (list Obj)) (h : Hook) :
  currentRequest p <> requestCounter h ->
  orElse (afterAwait cfg p r h) h = h.
Proof.
  intros H. unfold afterAwait. destruct r as [res|e]; simpl; [|reflexivity].
  apply Nat.eqb_neq in H. rewrite H. reflexivity.
Qed.

Lemma afterAwait_requestCounter {JS : Host} (cfg : Config) (p : Pending)
  (r : Completion (list Obj)) (h : Hook) :
  requestCounter (orElse (afterAwait cfg p r h) h) = requestCounter h.
Proof.
  unfold afterAwait. destruct r as [res|e]; simpl; [|reflexivity].
  destruct (Nat.eqb (currentRequest p) (requestCounter h)); simpl; [|reflexivity].
  destruct (Nat.ltb 0 (List.length res)); simpl.
  - destruct (sortArray _) as [s|e]; simpl; [|reflexivity].
    destruct (filterOptions _ _ _) as [f|e]; simpl; [|reflexivity].
    destruct (Nat.eqb _ _); reflexivity.
  - destruct (Nat.eqb _ _); reflexivity.
Qed.

(** The only [options] the continuation ever stores is the sorted,
    deduplicated merge. *)
Lemma afterAwait_options {JS : Host} (cfg : Config) (p : Pending)
  (r : Completion (list Obj)) (h : Hook) :
  options (orElse (afterAwait cfg p r h) h) = options h \/
  exists res, r = Normal res /\
    sortArray (uniqueByValue (optionsOf p ++ res)) =
    Normal (options (orElse (afterAwait cfg p r h) h)).
Proof.
  unfold afterAwait. destruct r as [res|e]; simpl; [|now left].
  destruct (Nat.eqb (currentRequest p) (requestCounter h)); simpl; [|now left].
  destruct (Nat.ltb 0 (List.length res)); simpl.
  - destruct (sortArray _) as [s|e] eqn:Hs; simpl; [|now left].
    destruct (filterOptions _ _ _) as [f|e]; simpl; [|now left].
    right. exists res. split; [reflexivity|].
    rewrite Hs. destruct (Nat.eqb _ _); reflexivity.
  - left. destruct (Nat.eqb _ _); reflexivity.
Qed.

(** A response that is current and not empty, on options the filter can
    read: everything is stored. *)
Lemma afterAwait_merge {JS : Host} {L : SortLaws JS} (cfg : Config) (p : Pending)
  (res : list Obj) (h : Hook) :
  currentRequest p = requestCounter h ->
  res <> [] ->
  Forall (readable cfg (keywordOf p)) (optionsOf p ++ res) ->
  Forall printable (optionsOf p ++ res) ->
  exists sorted,
    sortArray (uniqueByValue (optionsOf p ++ res)) = Normal sorted /\
    Permutation (uniqueByValue (optionsOf p ++ res)) sorted /\
    afterAwait cfg p (Normal res) h =
    Normal {| options := sorted;
              filteredOptions := filter (matchesb cfg (keywordOf p)) sorted;
              isLoading := false;
              searchGuard := emptyGuard;
              requestCounter := requestCounter h |}.
Proof.
  intros Hcur Hres Hsel Hprint.
  assert (Hu : Forall printable (uniqueByValue (optionsOf p ++ res))).
  { rewrite Forall_forall in *. intros y Hy. apply Hprint.
    now apply uniqueByValue_incl. }
  destruct (sortArray_returns (uniqueByValue (optionsOf p ++ res)) Hu)
    as [sorted [Hs Hp]].
  exists sorted. split; [exact Hs|]. split; [exact Hp|].
  unfold afterAwait. simpl. rewrite Hcur, Nat.eqb_refl. simpl.
  destruct res as [|x res]; [contradiction|]. simpl List.length. simpl Nat.ltb.
  cbv iota. rewrite Hs. simpl.
  rewrite filterOptions_returns.
  - simpl. rewrite Nat.eqb_refl. reflexivity.
  - rewrite Forall_forall in *. intros y Hy. apply Hsel.
    apply uniqueByValue_incl. eapply Permutation_in; [|exact Hy].
    now apply Permutation_sym.
Qed.

(* ------------------------------------------------------------------ *)
(** * Calls of [getOptions] *)

Lemma getOptionsFromAPI_requestCounter {JS : Host} (cfg : Config)
  (opts : list Obj) (keyword : string) (w : World) :
  requestCounter (hook (getOptionsFromAPI cfg opts keyword w)) =
  S (requestCounter (hook w)).
Proof.
  unfold getOptionsFromAPI. simpl.
  destruct (APIService cfg && guardAllows _ _)%bool; simpl; [reflexivity|].
  rewrite Nat.eqb_refl. reflexivity.
Qed.

Lemma getOptionsFromAPI_options {JS : Host} (cfg : Config)
  (opts : list Obj) (keyword : string) (w : World) :
  options (hook (getOptionsFromAPI cfg opts keyword w)) = options (hook w).
Proof.
  unfold getOptionsFromAPI. simpl.
  destruct (APIService cfg && guardAllows _ _)%bool; simpl; [reflexivity|].
  rewrite Nat.eqb_refl. reflexivity.
Qed.

Lemma getOptionsFromAPI_pending {JS : Host} (cfg : Config)
  (opts : list Obj) (keyword : string) (w : World) (p : Pending) :
  In p (pending (getOptionsFromAPI cfg opts keyword w)) ->
  In p (pending w) \/
  (optionsOf p = opts /\ currentRequest p = S (requestCounter (hook w))).
Proof.
  unfold getOptionsFromAPI. simpl.
  destruct (APIService cfg && guardAllows _ _)%bool; simpl; [|now left].
  intros H. apply in_app_or in H. destruct H as [H|[<-|[]]]; [now left|now right].
Qed.

(** The four ways a call of [getOptions] can end. *)
Lemma getOptions_cases {JS : Host} (cfg : Config) (opts : list Obj)
  (keyword : string) (w : World) :
  let w' := orElse (getOptions cfg opts keyword w) w in
  w' = w \/
  w' = getOptionsFromAPI cfg opts keyword w \/
  exists matched,
    w' = withHook (setSearchGuard emptyGuard
                     (setIsLoading false (setFilteredOptions matched (hook w)))) w.
Proof.
  unfold getOptions, filterOptionsLocally. simpl.
  destruct (Nat.ltb 0 (List.length opts)); simpl; [|now right; left].
  destruct (filterOptions cfg keyword opts) as [matched|e]; simpl; [|now left].
  destruct (Nat.ltb 0 (List.length matched)); simpl; [right; right; eauto|].
  destruct (guardAllows _ _); simpl; [now right; left|now left].
Qed.

Lemma reachesAPI_getOptions {JS : Host} (cfg : Config) (opts : list Obj)
  (keyword : string) (w : World) :
  reachesAPI cfg opts keyword w = true ->
  getOptions cfg opts keyword w = Normal (getOptionsFromAPI cfg opts keyword w).
Proof.
  unfold reachesAPI, getOptions, filterOptionsLocally.
  destruct (Nat.ltb 0 (List.length opts)); [|reflexivity].
  destruct (filterOptions cfg keyword opts) as [[|x m]|e]; try discriminate.
  simpl. now intros ->.
Qed.

(* ------------------------------------------------------------------ *)
(** * Invariants of the interleavings *)

Lemma step_requestCounter {JS : Host} (cfg : Config) (w : World) (ev : Event) :
  (requestCounter (hook w) <= requestCounter (hook (step cfg w ev)))%nat.
Proof.
  destruct ev as [keyword|opts keyword|request r]; simpl.
  - destruct (getOptions_cases cfg (options (hook w)) keyword w) as [->|[->|[m ->]]];
      [lia| rewrite getOptionsFromAPI_requestCounter; lia | simpl; lia].
  - destruct (getOptions_cases cfg opts keyword w) as [->|[->|[m ->]]];
      [lia| rewrite getOptionsFromAPI_requestCounter; lia | simpl; lia].
  - destruct (find (isRequest request) (pending w)); [|lia].
    simpl. rewrite afterAwait_requestCounter. lia.
Qed.

Lemma run_requestCounter {JS : Host} (cfg : Config) (evs : list Event) (w : World) :
  (requestCounter (hook w) <= requestCounter (hook (run cfg evs w)))%nat.
Proof.
  revert w. induction evs as [|ev evs IH]; simpl; intros w; [lia|].
  etransitivity; [apply (step_requestCounter cfg w ev)|apply IH].
Qed.

Lemma step_pendingBounded {JS : Host} (cfg : Config) (w : World) (ev : Event) :
  pendingBounded w -> pendingBounded (step cfg w ev).
Proof.
  unfold pendingBounded. intros Hw.
  assert (Hlook : forall opts keyword p,
             In p (pending (orElse (getOptions cfg opts keyword w) w)) ->
             (currentRequest p <=
              requestCounter (hook (orElse (getOptions cfg opts keyword w) w)))%nat).
  { intros opts keyword p.
    destruct (getOptions_cases cfg opts keyword w) as [->|[->|[m ->]]]; simpl.
    - apply Hw.
    - rewrite getOptionsFromAPI_requestCounter. intros Hp.
      apply getOptionsFromAPI_pending in Hp. destruct Hp as [Hp|[_ ->]]; [|lia].
      specialize (Hw p Hp). lia.
    - apply Hw. }
  destruct ev as [keyword|opts keyword|request r]; simpl.
  - apply Hlook.
  - apply Hlook.
  - destruct (find (isRequest request) (pending w)) as [q|]; [|exact Hw].
    simpl. intros p Hp. rewrite afterAwait_requestCounter.
    apply filter_In in Hp. now apply Hw.
Qed.

Lemma run_pendingBounded {JS : Host} (cfg : Config) (evs : list Event) (w : World) :
  pendingBounded w -> pendingBounded (run cfg evs w).
Proof.
  revert w. induction evs as [|ev evs IH]; simpl; intros w Hw; [exact Hw|].
  apply IH. now apply step_pendingBounded.
Qed.

Lemma initialWorld_pendingBounded {JS : Host} : pendingBounded initialWorld.
Proof. intros p []. Qed.

(* ------------------------------------------------------------------ *)
(** * Stale responses (C1) *)

(** The race check at work.  Let a call A of the service be pending in a
    reachable state, and let a later call of [getOptions] get as far as
    [getOptionsFromAPI] (its own [options] is empty, or nothing in it
    matches and the guard lets the keyword through).  Then, whatever
    happens in between, the settling of A changes nothing in the hook: not
    [options], not [filteredOptions], not [isLoading]. *)
Theorem stale_response_discarded {JS : Host} (cfg : Config)
  (evs0 : list Event) (A : Pending) (opts : list Obj) (keyword : string)
  (evs : list Event) (r : Completion (list Obj)) :
  In A (pending (run cfg evs0 initialWorld)) ->
  reachesAPI cfg opts keyword (run cfg evs0 initialWorld) = true ->
  hook (step cfg
          (run cfg evs (step cfg (run cfg evs0 initialWorld) (LookupFrom opts keyword)))
          (Settle (currentRequest A) r)) =
  hook (run cfg evs (step cfg (run cfg evs0 initialWorld) (LookupFrom opts keyword))).
Proof.
  intros HA HB.
  set (w0 := run cfg evs0 initialWorld) in *.
  set (w1 := step cfg w0 (LookupFrom opts keyword)).
  set (w2 := run cfg evs w1).
  assert (B0 : pendingBounded w0)
    by (apply run_pendingBounded, initialWorld_pendingBounded).
  assert (H1 : requestCounter (hook w1) = S (requestCounter (hook w0))).
  { unfold w1. simpl. rewrite (reachesAPI_getOptions _ _ _ _ HB). simpl.
    apply getOptionsFromAPI_requestCounter. }
  assert (H2 : (requestCounter (hook w1) <= requestCounter (hook w2))%nat)
    by apply run_requestCounter.
  specialize (B0 A HA).
  simpl. destruct (find (isRequest (currentRequest A)) (pending w2)) as [p|] eqn:F;
    [|reflexivity].
  apply find_some in F. destruct F as [_ F]. unfold isRequest in F.
  apply Nat.eqb_eq in F. simpl. apply afterAwait_stale. lia.
Qed.

Lemma stale_response_discarded_witness :
  In {| keywordOf := "a"; optionsOf := []; currentRequest := 1 |}
     (pending (run defaultConfig [Lookup "a"] initialWorld)) /\
  reachesAPI defaultConfig [] "ab" (run defaultConfig [Lookup "a"] initialWorld) = true /\
  hook (step defaultConfig
          (run defaultConfig []
             (step defaultConfig (run defaultConfig [Lookup "a"] initialWorld)
                (LookupFrom [] "ab")))
          (Settle 1 (Normal [apple]))) =
  hook (run defaultConfig []
          (step defaultConfig (run defaultConfig [Lookup "a"] initialWorld)
             (LookupFrom [] "ab"))).
Proof.
  assert (HA : In {| keywordOf := "a"; optionsOf := []; currentRequest := 1 |}
                 (pending (run defaultConfig [Lookup "a"] initialWorld)))
    by (simpl; auto).
  assert (HB : reachesAPI defaultConfig [] "ab"
                 (run defaultConfig [Lookup "a"] initialWorld) = true)
    by reflexivity.
  split; [exact HA|]. split; [exact HB|].
  exact (stale_response_discarded defaultConfig [Lookup "a"]
           {| keywordOf := "a"; optionsOf := []; currentRequest := 1 |}
           [] "ab" [] (Normal [apple]) HA HB).
Defined.

(** C1: the hook where the stale response is not discarded.  The options
    are fetched, a call for ["zz"] goes to the service and stays pending
    (request 2), and ["ap"] is then looked up and answered from the cache:
    [filteredOptions] is [apple].  The local path does not advance
    [requestCounter], which every entry of [getOptionsFromAPI] does, so
    the race check lets the answer to ["zz"] through when it arrives: it
    replaces [options] and [filteredOptions] after the later lookup. *)
Lemma stale_discard_fails_after_local_hit :
  In {| keywordOf := "zz"; optionsOf := [apple; banana]; currentRequest := 2 |}
     (pending (run defaultConfig [Lookup ""; Settle 1 (Normal [apple; banana]); Lookup "zz"]
                 initialWorld)) /\
  reachesAPI defaultConfig [apple; banana] "ap"
    (run defaultConfig [Lookup ""; Settle 1 (Normal [apple; banana]); Lookup "zz"]
       initialWorld) = false /\
  options (hook (run defaultConfig localHitTrace initialWorld)) = [apple; banana] /\
  filteredOptions (hook (run defaultConfig localHitTrace initialWorld)) = [apple] /\
  calls (run defaultConfig localHitTrace initialWorld) = [PKeyword ""; PKeyword "zz"] /\
  options (hook (step defaultConfig (run defaultConfig localHitTrace initialWorld)
                   (Settle 2 (Normal [pizza])))) = [apple; banana; pizza] /\
  filteredOptions (hook (step defaultConfig (run defaultConfig localHitTrace initialWorld)
                           (Settle 2 (Normal [pizza])))) = [pizza] /\
  options (hook (step defaultConfig (run defaultConfig localHitTrace initialWorld)
                   (Settle 2 (Normal [pizza])))) <>
  options (hook (run defaultConfig localHitTrace initialWorld)) /\
  filteredOptions (hook (step defaultConfig (run defaultConfig localHitTrace initialWorld)
                           (Settle 2 (Normal [pizza])))) <>
  filteredOptions (hook (run defaultConfig localHitTrace initialWorld)).
Proof.
  repeat split; try (vm_compute; auto; fail); vm_compute; discriminate.
Qed.

(* ------------------------------------------------------------------ *)
(** * The prefix rule (C2) *)

Lemma getOptionsFromAPI_blocked {JS : Host} (cfg : Config) (opts : list Obj)
  (keyword : string) (w : World) :
  guardAllows (searchGuard (hook w)) keyword = false ->
  calls (getOptionsFromAPI cfg opts keyword w) = calls w.
Proof.
  unfold getOptionsFromAPI. simpl. intros ->.
  rewrite Bool.andb_false_r. reflexivity.
Qed.

Lemma getOptionsFromAPI_called {JS : Host} (cfg : Config) (opts : list Obj)
  (keyword : string) (w : World) :
  APIService cfg = true ->
  guardAllows (searchGuard (hook w)) keyword = true ->
  getOptionsFromAPI cfg opts keyword w =
  {| hook := setRequestCounter (S (requestCounter (hook w)))
               (setIsLoading true (hook w));
     pending := pending w ++
       [{| keywordOf := keyword; optionsOf := opts;
           currentRequest := S (requestCounter (hook w)) |}];
     calls := calls w ++ [makePayload cfg keyword] |}.
Proof.
  unfold getOptionsFromAPI. simpl. intros -> ->. reflexivity.
Qed.

(** C2, as the code has it.  With the guard armed with [K]: a lookup of a
    keyword that starts with [K] never calls the service; a lookup of a
    keyword that does not start with [K] calls it, given that a service is
    configured and that no cached option matches the keyword (a local
    match is answered from the cache, whatever the guard says). *)
Theorem prefix_skip {JS : Host} (cfg : Config) (opts : list Obj)
  (keyword K : string) (w : World) :
  searchGuard (hook w) = armedGuard K ->
  (startsWith keyword K = true ->
   calls (step cfg w (LookupFrom opts keyword)) = calls w) /\
  (startsWith keyword K = false ->
   APIService cfg = true ->
   filterOptions cfg keyword opts = Normal [] ->
   calls (step cfg w (LookupFrom opts keyword)) = calls w ++ [makePayload cfg keyword]).
Proof.
  intros HG. split.
  - intros HK.
    assert (Hb : guardAllows (searchGuard (hook w)) keyword = false).
    { rewrite HG. unfold guardAllows. simpl. now rewrite HK. }
    simpl. unfold getOptions, filterOptionsLocally.
    destruct (Nat.ltb 0 (List.length opts)); simpl.
    + destruct (filterOptions cfg keyword opts) as [matched|e]; simpl; [|reflexivity].
      destruct (Nat.ltb 0 (List.length matched)); simpl; [reflexivity|].
      rewrite Hb. reflexivity.
    + now apply getOptionsFromAPI_blocked.
  - intros HK HS HF.
    assert (Ha : guardAllows (searchGuard (hook w)) keyword = true).
    { rewrite HG. unfold guardAllows. simpl. now rewrite HK. }
    simpl. unfold getOptions, filterOptionsLocally. rewrite HF. simpl. rewrite Ha.
    destruct (Nat.ltb 0 (List.length opts)); simpl;
      rewrite (getOptionsFromAPI_called _ _ _ _ HS Ha); reflexivity.
Qed.

Lemma prefix_skip_witness :
  searchGuard (hook armedWorld) = armedGuard "ab" /\
  calls (step defaultConfig armedWorld (LookupFrom [] "abc")) = calls armedWorld /\
  calls (step defaultConfig armedWorld (LookupFrom [] "b")) =
  calls armedWorld ++ [PKeyword "b"].
Proof.
  assert (HG : searchGuard (hook armedWorld) = armedGuard "ab") by reflexivity.
  split; [exact HG|]. split.
  - exact (proj1 (prefix_skip defaultConfig [] "abc" "ab" armedWorld HG) eq_refl).
  - exact (proj2 (prefix_skip defaultConfig [] "b" "ab" armedWorld HG)
             eq_refl eq_refl eq_refl).
Defined.

(** C2 as stated fails: ["b"] does not start with ["ab"] and a service is
    configured, yet the lookup is answered by the cached ["Banana"] and
    the service is not called. *)
Lemma prefix_skip_fails_on_local_match :
  searchGuard (hook armedWithBanana) = armedGuard "ab" /\
  options (hook armedWithBanana) = [banana] /\
  startsWith "b" "ab" = false /\
  APIService defaultConfig = true /\
  calls (step defaultConfig armedWithBanana (Lookup "b")) = calls armedWithBanana /\
  filteredOptions (hook (step defaultConfig armedWithBanana (Lookup "b"))) = [banana].
Proof. repeat split. Qed.

(* ------------------------------------------------------------------ *)
(** * What a response is filtered from (C3) *)

(** C3, as the code has it.  When a current response [res] is not empty,
    [filteredOptions] is the filter predicate, with the keyword of the
    call, applied to the merged, deduplicated and sorted options that are
    stored in [options]; [customDataName] only selects the property of
    each option that the predicate reads.  The guard is cleared.  This is
    so when neither the filter nor the comparator throws: the keyword is
    empty or what the filter selects from each option is not [null], and
    no label is an object with an own [toString]. *)
Theorem response_filters_merged_options {JS : Host} {L : SortLaws JS} (cfg : Config)
  (p : Pending) (res : list Obj) (h : Hook) :
  currentRequest p = requestCounter h ->
  res <> [] ->
  Forall (readable cfg (keywordOf p)) (optionsOf p ++ res) ->
  Forall printable (optionsOf p ++ res) ->
  exists sorted h',
    sortArray (uniqueByValue (optionsOf p ++ res)) = Normal sorted /\
    afterAwait cfg p (Normal res) h = Normal h' /\
    options h' = sorted /\
    filteredOptions h' = filter (matchesb cfg (keywordOf p)) (options h') /\
    searchGuard h' = emptyGuard.
Proof.
  intros Hcur Hres Hsel Hprint.
  destruct (afterAwait_merge cfg p res h Hcur Hres Hsel Hprint) as [sorted [Hs [_ Ha]]].
  exists sorted. eexists. split; [exact Hs|]. split; [exact Ha|].
  simpl. auto.
Qed.

Lemma response_filters_merged_options_witness :
  exists sorted h',
    sortArray (uniqueByValue ([] ++ [fig; date])) = Normal sorted /\
    afterAwait metaConfig
      {| keywordOf := "fr"; optionsOf := []; currentRequest := 1 |}
      (Normal [fig; date])
      (setRequestCounter 1 initialHook) = Normal h' /\
    options h' = sorted /\
    filteredOptions h' = filter (matchesb metaConfig "fr") (options h') /\
    searchGuard h' = emptyGuard.
Proof.
  apply (response_filters_merged_options (L := plainHost_SortLaws) metaConfig
           {| keywordOf := "fr"; optionsOf := []; currentRequest := 1 |}
           [fig; date] (setRequestCounter 1 initialHook)).
  - reflexivity.
  - discriminate.
  - simpl. repeat (apply Forall_cons; [right; discriminate|]). apply Forall_nil.
  - simpl. repeat (apply Forall_cons; [exact I|]). apply Forall_nil.
Defined.

(** C3 as stated fails: with [customDataName] configured the filter still
    runs over the sorted merge, so the response [fig, date] yields
    [date, fig], not the filtered raw response. *)
Lemma response_not_filtered_raw :
  filteredOptions
    (hook (run metaConfig [Lookup "fr"; Settle 1 (Normal [fig; date])] initialWorld)) =
  [date; fig] /\
  filter (matchesb metaConfig "fr") [fig; date] = [fig; date] /\
  filteredOptions
    (hook (run metaConfig [Lookup "fr"; Settle 1 (Normal [fig; date])] initialWorld)) <>
  filter (matchesb metaConfig "fr") [fig; date].
Proof.
  split; [reflexivity|]. split; [reflexivity|]. vm_compute. discriminate.
Qed.

(* ------------------------------------------------------------------ *)
(** * One entry per value (C4) *)

Lemma hasValue_congr (v v' : JSValue) (o : Obj) :
  sameValueZero v v' = true -> hasValue v o = hasValue v' o.
Proof.
  intros H. unfold hasValue.
  rewrite (sameValueZero_sym (value o) v), (sameValueZero_sym (value o) v').
  now apply sameValueZero_congr.
Qed.

Lemma lastWithValue_congr (v v' : JSValue) (l : list Obj) :
  sameValueZero v v' = true -> lastWithValue v l = lastWithValue v' l.
Proof.
  intros H. unfold lastWithValue.
  induction (rev l) as [|a t IH]; simpl; [reflexivity|].
  rewrite (hasValue_congr _ _ a H). now destruct (hasValue v' a).
Qed.

(** After a merge the options hold, for each value of the response, the
    last item of the response with that value and no other. *)
Lemma merge_entries {JS : Host} {L : SortLaws JS} (cfg : Config) (p : Pending)
  (res : list Obj) (h : Hook) (x : Obj) :
  currentRequest p = requestCounter h ->
  Forall (readable cfg (keywordOf p)) (optionsOf p ++ res) ->
  Forall printable (optionsOf p ++ res) ->
  In x res ->
  exists h' y,
    afterAwait cfg p (Normal res) h = Normal h' /\
    entriesFor (value x) (options h') = [y] /\
    lastWithValue (value x) res = Some y /\
    (forall z, In z (options h') -> In z (optionsOf p ++ res)).
Proof.
  intros Hcur Hsel Hprint Hx.
  assert (Hres : res <> []) by (intros ->; contradiction).
  destruct (afterAwait_merge cfg p res h Hcur Hres Hsel Hprint) as [sorted [_ [Hp Ha]]].
  assert (Hv : hasValue (value x) x = true) by apply sameValueZero_refl.
  destruct (lastWithValue_found (value x) res x Hx Hv) as [y [Hy _]].
  eexists. exists y. split; [exact Ha|]. simpl. split; [|split].
  - apply Permutation_length_1_inv.
    eapply perm_trans; [|apply entriesFor_perm, Hp].
    rewrite (proj2 (newMap_entries (optionsOf p ++ res))).
    rewrite (lastWithValue_app _ _ _ _ Hx Hv), Hy. apply Permutation_refl.
  - exact Hy.
  - intros z Hz. apply uniqueByValue_incl.
    eapply Permutation_in; [apply Permutation_sym, Hp|exact Hz].
Qed.

(** C4.  Let two responses each contain an option with the same value, the
    second one merged into the options that the first merge produced.
    After the first merge [options] has exactly one entry for that value,
    the one of the first response; after the second merge it has exactly
    one entry for it, the one of the second response (in each response,
    the last occurrence).  For a response to be merged, the filter and the
    sort that run before [options] is stored must not throw: the keyword
    is empty or what the filter selects from each option is not [null],
    and no label is an object with an own [toString].  The sort of the
    engine returns the elements it is given. *)
Theorem dedup_last_merged_wins {JS : Host} {L : SortLaws JS} (cfg : Config)
  (p1 p2 : Pending) (res1 res2 : list Obj) (h1 h2 : Hook) (x1 x2 : Obj) :
  currentRequest p1 = requestCounter h1 ->
  currentRequest p2 = requestCounter h2 ->
  Forall (readable cfg (keywordOf p1)) (optionsOf p1 ++ res1) ->
  Forall printable (optionsOf p1 ++ res1) ->
  In x1 res1 -> In x2 res2 ->
  sameValueZero (value x1) (value x2) = true ->
  exists h1' y1,
    afterAwait cfg p1 (Normal res1) h1 = Normal h1' /\
    entriesFor (value x1) (options h1') = [y1] /\
    lastWithValue (value x1) res1 = Some y1 /\
    (optionsOf p2 = options h1' ->
     Forall (readable cfg (keywordOf p2)) (optionsOf p2 ++ res2) ->
     Forall printable res2 ->
     exists h2' y2,
       afterAwait cfg p2 (Normal res2) h2 = Normal h2' /\
       entriesFor (value x1) (options h2') = [y2] /\
       lastWithValue (value x1) res2 = Some y2).
Proof.
  intros Hc1 Hc2 Hs1 Hp1 Hx1 Hx2 Hsame.
  destruct (merge_entries cfg p1 res1 h1 x1 Hc1 Hs1 Hp1 Hx1)
    as [h1' [y1 [Ha1 [He1 [Hl1 Hin1]]]]].
  exists h1', y1. repeat (split; [assumption|]).
  intros Hopts Hs Hp2.
  assert (Hp : Forall printable (optionsOf p2 ++ res2)).
  { apply Forall_app. split; [|exact Hp2]. rewrite Hopts.
    rewrite Forall_forall in *. intros z Hz. apply Hp1. now apply Hin1. }
  destruct (merge_entries cfg p2 res2 h2 x2 Hc2 Hs Hp Hx2)
    as [h2' [y2 [Ha2 [He2 [Hl2 _]]]]].
  exists h2', y2. split; [exact Ha2|].
  unfold entriesFor in *.
  rewrite (filter_ext _ _ (fun o => hasValue_congr _ _ o Hsame)).
  rewrite (lastWithValue_congr _ _ res2 Hsame). auto.
Qed.

Lemma dedup_last_merged_wins_witness :
  exists h1' y1,
    afterAwait defaultConfig
      {| keywordOf := "a"; optionsOf := []; currentRequest := 1 |}
      (Normal [apple; banana]) (setRequestCounter 1 initialHook) = Normal h1' /\
    entriesFor (value apple) (options h1') = [y1] /\
    lastWithValue (value apple) [apple; banana] = Some y1 /\
    (optionsOf {| keywordOf := "apr"; optionsOf := [apple; banana]; currentRequest := 2 |} =
     options h1' ->
     Forall (readable defaultConfig "apr") ([apple; banana] ++ [apricot]) ->
     Forall printable [apricot] ->
     exists h2' y2,
       afterAwait defaultConfig
         {| keywordOf := "apr"; optionsOf := [apple; banana]; currentRequest := 2 |}
         (Normal [apricot]) (setRequestCounter 2 initialHook) = Normal h2' /\
       entriesFor (value apple) (options h2') = [y2] /\
       lastWithValue (value apple) [apricot] = Some y2).
Proof.
  apply (dedup_last_merged_wins (L := plainHost_SortLaws) defaultConfig
           {| keywordOf := "a"; optionsOf := []; currentRequest := 1 |}
           {| keywordOf := "apr"; optionsOf := [apple; banana]; currentRequest := 2 |}
           [apple; banana] [apricot]
           (setRequestCounter 1 initialHook) (setRequestCounter 2 initialHook)
           apple apricot).
  - reflexivity.
  - reflexivity.
  - simpl. repeat (apply Forall_cons; [right; discriminate|]). apply Forall_nil.
  - simpl. repeat (apply Forall_cons; [exact I|]). apply Forall_nil.
  - simpl; auto.
  - simpl; auto.
  - reflexivity.
Defined.

(** The same on a run of the hook: the second response replaces the
    entry for value 1. *)
Example dedup_on_a_run :
  options (hook (run defaultConfig
                   [Lookup "a"; Settle 1 (Normal [apple; banana]);
                    Lookup "apr"; Settle 2 (Normal [apricot])]
                   initialWorld)) = [apricot; banana].
Proof. reflexivity. Qed.

(* ------------------------------------------------------------------ *)
(** * Sorted options (C5) *)






Example options_sorted_on_a_run :
  options (hook (run defaultConfig
                   [Lookup "a"; Settle 1 (Normal [banana; apple]); Lookup "z";
                    Settle 2 (Normal [zebra; apricot])]
                   initialWorld)) = [apricot; banana; zebra].
Proof. reflexivity. Qed.


(* ------------------------------------------------------------------ *)
(** * Local hits (C6) *)

(** A non-empty filter result ends the lookup in the cache. *)
Lemma getOptions_answers_locally {JS : Host} (cfg : Config) (opts matched : list Obj)
  (keyword : string) (w : World) :
  filterOptions cfg keyword opts = Normal matched ->
  matched <> [] ->
  getOptions cfg opts keyword w =
  Normal (withHook (setSearchGuard emptyGuard
                      (setIsLoading false
                         (setFilteredOptions matched (hook w)))) w).
Proof.
  intros HF Hm. unfold getOptions, filterOptionsLocally.
  assert (Ho : opts <> []).
  { intros ->. simpl in HF. inversion HF; subst. contradiction. }
  destruct opts as [|o opts]; [contradiction|]. simpl List.length. simpl Nat.ltb.
  cbv iota. rewrite HF. simpl.
  destruct matched as [|m matched]; [contradiction|]. reflexivity.
Qed.



(** The example of the specification. *)
Example apple_answered_locally :
  getOptions defaultConfig [apple; banana] "ap" cachedWorld =
  Normal {| hook := {| options := [apple; banana]; filteredOptions := [apple];
                       isLoading := false; searchGuard := emptyGuard;
                       requestCounter := 0 |};
            pending := []; calls := [] |}.
Proof. reflexivity. Qed.


(* ------------------------------------------------------------------ *)
(** * Empty responses (C7) *)

(** C7.  When the call of the service that is current settles with an
    empty response, [filteredOptions] becomes empty and the guard becomes
    [{prevKeyword: K, stop: true}], with [K] the keyword of that call;
    [isLoading] is cleared and [options] stays. *)
Theorem empty_response_arms_guard {JS : Host} (cfg : Config) (w : World)
  (p : Pending) :
  find (isRequest (currentRequest p)) (pending w) = Some p ->
  currentRequest p = requestCounter (hook w) ->
  filteredOptions (hook (step cfg w (Settle (currentRequest p) (Normal [])))) = [] /\
  prevKeyword (searchGuard (hook (step cfg w (Settle (currentRequest p) (Normal []))))) =
  Some (keywordOf p) /\
  stop (searchGuard (hook (step cfg w (Settle (currentRequest p) (Normal []))))) = true /\
  isLoading (hook (step cfg w (Settle (currentRequest p) (Normal [])))) = false /\
  options (hook (step cfg w (Settle (currentRequest p) (Normal [])))) =
  options (hook w).
Proof.
  intros F Hcur. simpl. rewrite F. simpl. unfold afterAwait. simpl.
  rewrite Hcur, Nat.eqb_refl. simpl. rewrite ?Nat.eqb_refl. simpl. auto.
Qed.

Lemma empty_response_arms_guard_witness :
  find (isRequest 1) (pending (run defaultConfig [Lookup "xyz"] initialWorld)) =
  Some {| keywordOf := "xyz"; optionsOf := []; currentRequest := 1 |} /\
  calls (run defaultConfig [Lookup "xyz"] initialWorld) = [PKeyword "xyz"] /\
  filteredOptions (hook (step defaultConfig (run defaultConfig [Lookup "xyz"] initialWorld)
                           (Settle 1 (Normal [])))) = [] /\
  prevKeyword (searchGuard (hook (step defaultConfig
                                    (run defaultConfig [Lookup "xyz"] initialWorld)
                                    (Settle 1 (Normal []))))) = Some "xyz" /\
  stop (searchGuard (hook (step defaultConfig
                             (run defaultConfig [Lookup "xyz"] initialWorld)
                             (Settle 1 (Normal []))))) = true /\
  isLoading (hook (step defaultConfig (run defaultConfig [Lookup "xyz"] initialWorld)
                     (Settle 1 (Normal [])))) = false /\
  options (hook (step defaultConfig (run defaultConfig [Lookup "xyz"] initialWorld)
                   (Settle 1 (Normal [])))) =
  options (hook (run defaultConfig [Lookup "xyz"] initialWorld)).
Proof.
  split; [reflexivity|]. split; [reflexivity|].
  exact (empty_response_arms_guard defaultConfig
           (run defaultConfig [Lookup "xyz"] initialWorld)
           {| keywordOf := "xyz"; optionsOf := []; currentRequest := 1 |}
           eq_refl eq_refl).
Defined.

(* ------------------------------------------------------------------ *)
(** * A failing service (C9) *)

Lemma settle_rejected_hook {JS : Host} (cfg : Config) (w : World)
  (request : nat) (e : Error) :
  hook (step cfg w (Settle request (Throw e))) = hook w.
Proof.
  simpl. destruct (find (isRequest request) (pending w)); reflexivity.
Qed.

(** C9, as the code has it.  When a pending call of the service fails
    with [e], in whatever state the hook is by then, the continuation of
    [getOptionsFromAPI] ends with [e], uncaught, and the hook is left as
    it is: [isLoading] and the guard are not reset, and the call is no
    longer pending.  When the failure comes directly after the call was
    made, [isLoading] is therefore still [true] and the guard the one
    from before the call. *)
Theorem rejection_not_handled {JS : Host} (cfg : Config) (w : World)
  (p : Pending) (e : Error) :
  In p (pending w) ->
  afterAwait cfg p (Throw e) (hook w) = Throw e /\
  hook (step cfg w (Settle (currentRequest p) (Throw e))) = hook w /\
  isLoading (hook (step cfg w (Settle (currentRequest p) (Throw e)))) =
  isLoading (hook w) /\
  searchGuard (hook (step cfg w (Settle (currentRequest p) (Throw e)))) =
  searchGuard (hook w) /\
  (forall q, In q (pending (step cfg w (Settle (currentRequest p) (Throw e)))) ->
             currentRequest q <> currentRequest p) /\
  (forall opts keyword,
      APIService cfg = true ->
      guardAllows (searchGuard (hook w)) keyword = true ->
      isLoading (hook (step cfg (getOptionsFromAPI cfg opts keyword w)
                         (Settle (S (requestCounter (hook w))) (Throw e)))) = true /\
      searchGuard (hook (step cfg (getOptionsFromAPI cfg opts keyword w)
                           (Settle (S (requestCounter (hook w))) (Throw e)))) =
      searchGuard (hook w)).
Proof.
  intros Hp. split; [reflexivity|].
  rewrite settle_rejected_hook. repeat split.
  - intros q Hq. simpl in Hq.
    destruct (find (isRequest (currentRequest p)) (pending w)) as [p0|] eqn:F.
    + simpl in Hq. apply filter_In in Hq. destruct Hq as [_ Hq].
      unfold isRequest in Hq. now apply Bool.negb_true_iff, Nat.eqb_neq in Hq.
    + exfalso. apply (find_none _ _ F p) in Hp. unfold isRequest in Hp.
      now rewrite Nat.eqb_refl in Hp.
  - rewrite settle_rejected_hook.
    now rewrite (getOptionsFromAPI_called cfg opts keyword w H H0).
  - rewrite settle_rejected_hook.
    now rewrite (getOptionsFromAPI_called cfg opts keyword w H H0).
Qed.

Lemma rejection_not_handled_witness :
  In {| keywordOf := "a"; optionsOf := []; currentRequest := 1 |}
     (pending (run defaultConfig [Lookup "a"] initialWorld)) /\
  afterAwait defaultConfig {| keywordOf := "a"; optionsOf := []; currentRequest := 1 |}
    (Throw Rejected) (hook (run defaultConfig [Lookup "a"] initialWorld)) =
  Throw Rejected /\
  hook (step defaultConfig (run defaultConfig [Lookup "a"] initialWorld)
          (Settle 1 (Throw Rejected))) =
  hook (run defaultConfig [Lookup "a"] initialWorld) /\
  isLoading (hook (step defaultConfig (run defaultConfig [Lookup "a"] initialWorld)
                     (Settle 1 (Throw Rejected)))) = true.
Proof.
  assert (Hp : In {| keywordOf := "a"; optionsOf := []; currentRequest := 1 |}
                 (pending (run defaultConfig [Lookup "a"] initialWorld)))
    by (simpl; auto).
  destruct (rejection_not_handled defaultConfig
              (run defaultConfig [Lookup "a"] initialWorld)
              {| keywordOf := "a"; optionsOf := []; currentRequest := 1 |}
              Rejected Hp) as [H1 [H2 [H3 _]]].
  split; [exact Hp|]. split; [exact H1|]. split; [exact H2|]. exact H3.
Defined.

(** C9 as stated fails: [isLoading] does not remain [true] for every
    rejected call.  The call for ["zz"] is pending when ["ap"] is answered
    from the cache, which clears [isLoading]; when the call is then
    rejected the hook is left as it is, with [isLoading] [false]. *)
Lemma rejection_after_local_hit :
  In {| keywordOf := "zz"; optionsOf := [apple; banana]; currentRequest := 2 |}
     (pending (run defaultConfig localHitTrace initialWorld)) /\
  calls (run defaultConfig localHitTrace initialWorld) = [PKeyword ""; PKeyword "zz"] /\
  isLoading (hook (run defaultConfig [Lookup ""; Settle 1 (Normal [apple; banana]);
                                      Lookup "zz"] initialWorld)) = true /\
  isLoading (hook (run defaultConfig localHitTrace initialWorld)) = false /\
  isLoading (hook (run defaultConfig rejectedAfterLocalHit initialWorld)) = false.
Proof. repeat split. vm_compute. auto. Qed.

(* ------------------------------------------------------------------ *)
(** * The empty keyword (C10) *)

Lemma selectsTruthy_default (cfg : Config) (ele : Obj) :
  customDataName cfg = None -> selectsTruthy cfg ele.
Proof. unfold selectsTruthy, selected. intros ->. now right. Qed.

Lemma matchesb_empty_keyword {JS : Host} (cfg : Config) (ele : Obj) :
  selectsTruthy cfg ele -> matchesb cfg "" ele = true.
Proof.
  unfold selectsTruthy, matchesb, matchesKeyword, hasKeyword. simpl.
  intros [->|H]; [reflexivity|]. now destruct (selected cfg ele).
Qed.

(** C10, as the code has it.  With [customDataName] not configured, or
    with [option[customDataName]] of every cached option truthy or
    [undefined], a lookup of the empty keyword in a non-empty [options]
    matches every option: [filteredOptions] becomes the whole list,
    [isLoading] and the guard are cleared, and the service is not
    called. *)
Theorem empty_keyword_matches_all {JS : Host} (cfg : Config)
  (opts : list Obj) (w : World) :
  opts <> [] ->
  Forall (selectsTruthy cfg) opts ->
  exists w',
    getOptions cfg opts "" w = Normal w' /\
    filteredOptions (hook w') = opts /\
    isLoading (hook w') = false /\
    searchGuard (hook w') = emptyGuard /\
    options (hook w') = options (hook w) /\
    calls w' = calls w /\
    pending w' = pending w.
Proof.
  intros Hne Hall.
  assert (Hf : filter (matchesb cfg "") opts = opts).
  { clear Hne. induction Hall as [|o l Ho _ IH]; simpl; [reflexivity|].
    rewrite (matchesb_empty_keyword cfg o Ho), IH. reflexivity. }
  assert (HF : filterOptions cfg "" opts = Normal opts).
  { rewrite filterOptions_empty_keyword, Hf. reflexivity. }
  eexists. split; [apply (getOptions_answers_locally cfg opts opts "" w HF Hne)|].
  simpl. repeat split.
Qed.

Lemma empty_keyword_matches_all_witness :
  [apple; banana] <> [] /\
  Forall (selectsTruthy defaultConfig) [apple; banana] /\
  exists w',
    getOptions defaultConfig [apple; banana] "" cachedWorld = Normal w' /\
    filteredOptions (hook w') = [apple; banana] /\
    isLoading (hook w') = false /\
    searchGuard (hook w') = emptyGuard /\
    options (hook w') = options (hook cachedWorld) /\
    calls w' = calls cachedWorld /\
    pending w' = pending cachedWorld.
Proof.
  assert (H1 : [apple; banana] <> []) by discriminate.
  assert (H2 : Forall (selectsTruthy defaultConfig) [apple; banana])
    by (repeat constructor; apply selectsTruthy_default; reflexivity).
  split; [exact H1|]. split; [exact H2|].
  exact (empty_keyword_matches_all defaultConfig [apple; banana] cachedWorld H1 H2).
Defined.

(** C10 as stated fails: with the empty keyword [hasKeyword] returns what
    was selected from the option, here the empty string, which is falsy.
    No option matches and the service is called with the empty keyword. *)
Lemma empty_keyword_falsy_selection :
  options (hook emptyNoteWorld) = [appleEmptyNote] /\
  hasKeyword (selected noteConfig appleEmptyNote) "" = Normal (JStr "") /\
  calls (step noteConfig emptyNoteWorld (Lookup "")) =
  calls emptyNoteWorld ++ [PKeyword ""] /\
  filteredOptions (hook (step noteConfig emptyNoteWorld (Lookup ""))) = [] /\
  isLoading (hook (step noteConfig emptyNoteWorld (Lookup ""))) = true.
Proof. repeat split. Qed.

(* ------------------------------------------------------------------ *)
(** * Options without a label (C8) *)



(** The comparator on the pairs of the examples. *)
Example comparator_on_examples :
  compareLabels unlabelled labelledA = Normal None /\
  compareLabels labelledA unlabelled = Normal (Some (-1)) /\
  compareLabels oddLabel unlabelled = Throw TypeError /\
  compareLabels unlabelled oddLabel = Normal None.
Proof. repeat split. Qed.


(* ------------------------------------------------------------------ *)
(** * The payload of a call *)

Lemma getProp_setProp_same (o : Obj) (k : string) (v : JSValue) :
  getProp (setProp o k v) k = v.
Proof.
  induction o as [|[k' v'] o IH]; simpl.
  - now rewrite String.eqb_refl.
  - destruct (String.eqb k' k) eqn:E; simpl; rewrite E; auto.
Qed.

Lemma getProp_setProp_other (o : Obj) (k k' : string) (v : JSValue) :
  k <> k' -> getProp (setProp o k v) k' = getProp o k'.
Proof.
  intros Hk. induction o as [|[k0 v0] o IH]; simpl.
  - destruct (String.eqb_spec k k'); [contradiction|reflexivity].
  - destruct (String.eqb_spec k0 k); simpl.
    + subst. destruct (String.eqb_spec k k'); [contradiction|reflexivity].
    + destruct (String.eqb k0 k'); auto.
Qed.

Lemma getProp_absent (o : Obj) (k : string) :
  ~ In k (keysOf o) -> getProp o k = JUndefined.
Proof.
  induction o as [|[k0 v0] o IH]; simpl; intros H; [reflexivity|].
  destruct (String.eqb_spec k0 k); [tauto|]. apply IH. tauto.
Qed.

(** Spreading an object over another: its properties win, the others
    stay. *)
Lemma spread_getProp (extra base : Obj) (k : string) :
  NoDup (keysOf extra) ->
  getProp (fold_left (fun o kv => setProp o (fst kv) (snd kv)) extra base) k =
  if in_dec string_dec k (keysOf extra) then getProp extra k else getProp base k.
Proof.
  revert base. induction extra as [|[k1 v1] extra IH]; simpl; intros base ND.
  - reflexivity.
  - inversion ND as [|? ? Hnotin ND']; subst. rewrite (IH _ ND').
    destruct (String.eqb_spec k1 k) as [->|Hne].
    + destruct (in_dec string_dec k (keysOf extra)) as [Hin|Hin]; [contradiction|].
      destruct (string_dec k k) as [He|Hc]; [|contradiction].
      apply getProp_setProp_same.
    + destruct (string_dec k1 k) as [Hc|Hc]; [contradiction|].
      destruct (in_dec string_dec k (keysOf extra)); [reflexivity|].
      now apply getProp_setProp_other.
Qed.

(** With a [customPayload], the service receives an object that has every
    property of [customPayload] with its value, the keyword under
    [customKey] when [customPayload] has no property of that name, and
    nothing else. *)
Theorem payload_carries_keyword_and_extras (cfg : Config)
  (keyword : string) (extra : Obj) :
  customPayload cfg = Some extra ->
  NoDup (keysOf extra) ->
  exists o,
    makePayload cfg keyword = PObject o /\
    (forall k, In k (keysOf extra) -> getProp o k = getProp extra k) /\
    (~ In (customKey cfg) (keysOf extra) -> getProp o (customKey cfg) = JStr keyword) /\
    (forall k, ~ In k (keysOf extra) -> k <> customKey cfg -> getProp o k = JUndefined).
Proof.
  intros HP ND. unfold makePayload. rewrite HP. eexists. split; [reflexivity|].
  split; [|split].
  - intros k Hk. rewrite (spread_getProp _ _ _ ND).
    destruct (in_dec string_dec k (keysOf extra)); [reflexivity|contradiction].
  - intros Hk. rewrite (spread_getProp _ _ _ ND).
    destruct (in_dec string_dec (customKey cfg) (keysOf extra)); [contradiction|].
    simpl. now rewrite String.eqb_refl.
  - intros k Hk Hne. rewrite (spread_getProp _ _ _ ND).
    destruct (in_dec string_dec k (keysOf extra)); [contradiction|].
    simpl. destruct (String.eqb_spec (customKey cfg) k); [congruence|reflexivity].
Qed.

Lemma payload_carries_keyword_and_extras_witness :
  customPayload customPayloadConfig = Some [("limit", JNum 10); ("lang", JStr "en")] /\
  NoDup (keysOf [("limit", JNum 10); ("lang", JStr "en")]) /\
  exists o,
    makePayload customPayloadConfig "ap" = PObject o /\
    (forall k, In k (keysOf [("limit", JNum 10); ("lang", JStr "en")]) ->
               getProp o k = getProp [("limit", JNum 10); ("lang", JStr "en")] k) /\
    (~ In (customKey customPayloadConfig) (keysOf [("limit", JNum 10); ("lang", JStr "en")]) ->
     getProp o (customKey customPayloadConfig) = JStr "ap") /\
    (forall k, ~ In k (keysOf [("limit", JNum 10); ("lang", JStr "en")]) ->
               k <> customKey customPayloadConfig -> getProp o k = JUndefined).
Proof.
  assert (ND : NoDup (keysOf [("limit", JNum 10); ("lang", JStr "en")])).
  { simpl. repeat constructor; simpl; intuition discriminate. }
  split; [reflexivity|]. split; [exact ND|].
  exact (payload_carries_keyword_and_extras customPayloadConfig "ap" _ eq_refl ND).
Defined.

Example payload_on_a_call :
  calls (step customPayloadConfig initialWorld (Lookup "ap")) =
  [PObject [("q", JStr "ap"); ("limit", JNum 10); ("lang", JStr "en")]].
Proof. reflexivity. Qed.

Lemma spread_head_overridden (extra t : Obj) (k : string) (v w : JSValue) :
  In k (keysOf extra) ->
  fold_left (fun o kv => setProp o (fst kv) (snd kv)) extra ((k, v) :: t) =
  fold_left (fun o kv => setProp o (fst kv) (snd kv)) extra ((k, w) :: t).
Proof.
  revert t v w. induction extra as [|[k1 v1] extra IH]; simpl; intros t v w Hin.
  - contradiction.
  - destruct (String.eqb_spec k k1) as [->|Hne].
    + reflexivity.
    + destruct Hin as [Hc|Hin]; [congruence|]. now apply IH.
Qed.

(** A [customPayload] that has a property named [customKey] overrides the
    keyword: the service receives the value of [customPayload] under that
    name, and the same payload whatever is looked up. *)
Theorem payload_keyword_overridden (cfg : Config)
  (keyword keyword' : string) (extra : Obj) :
  customPayload cfg = Some extra ->
  NoDup (keysOf extra) ->
  In (customKey cfg) (keysOf extra) ->
  makePayload cfg keyword = makePayload cfg keyword' /\
  exists o,
    makePayload cfg keyword = PObject o /\
    getProp o (customKey cfg) = getProp extra (customKey cfg).
Proof.
  intros HP ND Hin. unfold makePayload. rewrite HP. split.
  - f_equal. now apply spread_head_overridden.
  - eexists. split; [reflexivity|].
    rewrite (spread_getProp _ _ _ ND).
    destruct (in_dec string_dec (customKey cfg) (keysOf extra)); [reflexivity|contradiction].
Qed.

Lemma payload_keyword_overridden_witness :
  customPayload overridingConfig = Some [("limit", JNum 10); ("q", JStr "fixed")] /\
  NoDup (keysOf [("limit", JNum 10); ("q", JStr "fixed")]) /\
  In (customKey overridingConfig) (keysOf [("limit", JNum 10); ("q", JStr "fixed")]) /\
  makePayload overridingConfig "apple" = makePayload overridingConfig "banana" /\
  exists o,
    makePayload overridingConfig "apple" = PObject o /\
    getProp o (customKey overridingConfig) =
    getProp [("limit", JNum 10); ("q", JStr "fixed")] (customKey overridingConfig).
Proof.
  assert (ND : NoDup (keysOf [("limit", JNum 10); ("q", JStr "fixed")])).
  { simpl. repeat constructor; simpl; intuition discriminate. }
  assert (Hin : In (customKey overridingConfig)
                  (keysOf [("limit", JNum 10); ("q", JStr "fixed")]))
    by (simpl; auto).
  split; [reflexivity|]. split; [exact ND|]. split; [exact Hin|].
  exact (payload_keyword_overridden overridingConfig "apple" "banana" _ eq_refl ND Hin).
Defined.

Example payload_overridden_on_a_call :
  calls (step overridingConfig initialWorld (Lookup "apple")) =
  [PObject [("q", JStr "fixed"); ("limit", JNum 10)]].
Proof. reflexivity. Qed.

(* ------------------------------------------------------------------ *)
(** * Sorting keeps the options *)



(* ------------------------------------------------------------------ *)
(** * A hook without a service *)

Lemma getOptionsFromAPI_not_called {JS : Host} (cfg : Config) (opts : list Obj)
  (keyword : string) (w : World) :
  (APIService cfg && guardAllows (searchGuard (hook w)) keyword)%bool = false ->
  getOptionsFromAPI cfg opts keyword w =
  withHook (setIsLoading false
              (setRequestCounter (S (requestCounter (hook w)))
                 (setIsLoading true (hook w)))) w.
Proof.
  unfold getOptionsFromAPI. simpl. intros ->. rewrite Nat.eqb_refl. reflexivity.
Qed.

(** When no [APIService] is passed, nothing that happens to the hook
    calls a service or leaves a call pending; [options] stays empty and
    [isLoading] is [false] after every event. *)
Theorem no_service_no_effect {JS : Host} (cfg : Config) (evs : list Event) :
  APIService cfg = false ->
  calls (run cfg evs initialWorld) = [] /\
  pending (run cfg evs initialWorld) = [] /\
  options (hook (run cfg evs initialWorld)) = [] /\
  isLoading (hook (run cfg evs initialWorld)) = false.
Proof.
  intros HS.
  assert (G : forall w,
             calls w = [] /\ pending w = [] /\ options (hook w) = [] /\
             isLoading (hook w) = false ->
             calls (run cfg evs w) = [] /\ pending (run cfg evs w) = [] /\
             options (hook (run cfg evs w)) = [] /\
             isLoading (hook (run cfg evs w)) = false).
  { induction evs as [|ev evs IH]; simpl; intros w Hw; [exact Hw|].
    apply IH. destruct Hw as [H1 [H2 [H3 H4]]].
    assert (Hlook : forall opts keyword,
               let w' := orElse (getOptions cfg opts keyword w) w in
               calls w' = [] /\ pending w' = [] /\ options (hook w') = [] /\
               isLoading (hook w') = false).
    { intros opts keyword.
      destruct (getOptions_cases cfg opts keyword w) as [E|[E|[m E]]];
        simpl in E; simpl; rewrite E.
      - auto.
      - rewrite getOptionsFromAPI_not_called by (now rewrite HS). simpl. auto.
      - simpl. auto. }
    destruct ev as [keyword|opts keyword|request r]; simpl.
    - apply Hlook.
    - apply Hlook.
    - rewrite H2. simpl. auto. }
  apply G. simpl. auto.
Qed.

Lemma no_service_no_effect_witness :
  APIService noServiceConfig = false /\
  calls (run noServiceConfig [Lookup "a"; LookupFrom [apple] "ap"; Settle 1 (Normal [banana])]
           initialWorld) = [] /\
  pending (run noServiceConfig [Lookup "a"; LookupFrom [apple] "ap"; Settle 1 (Normal [banana])]
             initialWorld) = [] /\
  options (hook (run noServiceConfig
                   [Lookup "a"; LookupFrom [apple] "ap"; Settle 1 (Normal [banana])]
                   initialWorld)) = [] /\
  isLoading (hook (run noServiceConfig
                     [Lookup "a"; LookupFrom [apple] "ap"; Settle 1 (Normal [banana])]
                     initialWorld)) = false.
Proof.
  split; [reflexivity|].
  exact (no_service_no_effect noServiceConfig
           [Lookup "a"; LookupFrom [apple] "ap"; Settle 1 (Normal [banana])] eq_refl).
Defined.

(* ------------------------------------------------------------------ *)
(** * At most one pending call is current *)

Lemma getOptionsFromAPI_pending_cases {JS : Host} (cfg : Config)
  (opts : list Obj) (keyword : string) (w : World) :
  pending (getOptionsFromAPI cfg opts keyword w) = pending w \/
  pending (getOptionsFromAPI cfg opts keyword w) =
  pending w ++ [{| keywordOf := keyword; optionsOf := opts;
                   currentRequest := S (requestCounter (hook w)) |}].
Proof.
  unfold getOptionsFromAPI. simpl.
  destruct (APIService cfg && guardAllows _ _)%bool; simpl; auto.
Qed.

Lemma NoDup_map_filter {A B : Type} (f : A -> B) (g : A -> bool) (l : list A) :
  NoDup (map f l) -> NoDup (map f (filter g l)).
Proof.
  induction l as [|a l IH]; simpl; intros H; [constructor|].
  inversion H as [|? ? Hn Hd]; subst.
  destruct (g a); simpl; auto. constructor; auto.
  intros Hin. apply Hn. apply in_map_iff in Hin. destruct Hin as [x [<- Hx]].
  apply in_map. apply filter_In in Hx. tauto.
Qed.

Lemma step_distinct_requests {JS : Host} (cfg : Config) (w : World) (ev : Event) :
  pendingBounded w ->
  NoDup (map currentRequest (pending w)) ->
  NoDup (map currentRequest (pending (step cfg w ev))).
Proof.
  intros HB HN.
  assert (Hlook : forall opts keyword,
             NoDup (map currentRequest
                      (pending (orElse (getOptions cfg opts keyword w) w)))).
  { intros opts keyword.
    destruct (getOptions_cases cfg opts keyword w) as [E|[E|[m E]]];
      simpl in E; rewrite E; simpl; auto.
    destruct (getOptionsFromAPI_pending_cases cfg opts keyword w) as [->| ->]; auto.
    rewrite map_app. simpl. apply NoDup_app; auto.
    - repeat constructor. intros [].
    - intros n Hn [<-|[]]. apply in_map_iff in Hn. destruct Hn as [p [Hp Hin]].
      specialize (HB p Hin). lia. }
  destruct ev as [keyword|opts keyword|request r]; simpl.
  - apply Hlook.
  - apply Hlook.
  - destruct (find (isRequest request) (pending w)); [|exact HN].
    simpl. now apply NoDup_map_filter.
Qed.

(** In every state the hook reaches, the request numbers of the pending
    calls are pairwise distinct and none exceeds [requestCounter]: at most
    one pending call is current.  The settling of any other, with
    whatever result, leaves the hook as it is. *)
Theorem one_current_request {JS : Host} (cfg : Config) (evs : list Event) :
  NoDup (map currentRequest (pending (run cfg evs initialWorld))) /\
  (forall p, In p (pending (run cfg evs initialWorld)) ->
             (currentRequest p <= requestCounter (hook (run cfg evs initialWorld)))%nat) /\
  (forall p r, In p (pending (run cfg evs initialWorld)) ->
               currentRequest p <> requestCounter (hook (run cfg evs initialWorld)) ->
               hook (step cfg (run cfg evs initialWorld) (Settle (currentRequest p) r)) =
               hook (run cfg evs initialWorld)).
Proof.
  assert (G : forall w, pendingBounded w -> NoDup (map currentRequest (pending w)) ->
                        NoDup (map currentRequest (pending (run cfg evs w)))).
  { induction evs as [|ev evs IH]; simpl; intros w HB HN; [exact HN|].
    apply IH; [now apply step_pendingBounded|now apply step_distinct_requests]. }
  split; [|split].
  - apply G; [apply initialWorld_pendingBounded|constructor].
  - apply run_pendingBounded, initialWorld_pendingBounded.
  - intros p r Hp Hne. simpl.
    destruct (find (isRequest (currentRequest p)) (pending (run cfg evs initialWorld)))
      as [q|] eqn:F; [|reflexivity].
    apply find_some in F. destruct F as [_ F]. unfold isRequest in F.
    apply Nat.eqb_eq in F. simpl. apply afterAwait_stale. congruence.
Qed.

(* ------------------------------------------------------------------ *)
(** * Options stay deduplicated *)

(** In every state the hook reaches, [options] has at most one entry for
    any value, whatever closures the lookups came from.  The sort of the
    engine returns the elements it is given. *)
Theorem options_deduplicated {JS : Host} (L : SortLaws JS) (cfg : Config)
  (evs : list Event) (v : JSValue) :
  (List.length (entriesFor v (options (hook (run cfg evs initialWorld)))) <= 1)%nat.
Proof.
  assert (G : forall w,
             (forall u, (List.length (entriesFor u (options (hook w))) <= 1)%nat) ->
             forall u, (List.length (entriesFor u (options (hook (run cfg evs w)))) <= 1)%nat).
  { induction evs as [|ev evs IH]; simpl; intros w Hw; [exact Hw|].
    apply IH.
    assert (Hlook : forall opts keyword u,
               (List.length (entriesFor u
                  (options (hook (orElse (getOptions cfg opts keyword w) w)))) <= 1)%nat).
    { intros opts keyword u.
      destruct (getOptions_cases cfg opts keyword w) as [E|[E|[m E]]];
        simpl in E; rewrite E; simpl; auto.
      rewrite getOptionsFromAPI_options. auto. }
    destruct ev as [keyword|opts keyword|request r]; simpl.
    - apply Hlook.
    - apply Hlook.
    - destruct (find (isRequest request) (pending w)) as [p|]; [|exact Hw].
      simpl. intros u.
      destruct (afterAwait_options cfg p r (hook w)) as [->|[res [_ Hs]]]; [apply Hw|].
      apply sort_permutes in Hs.
      rewrite <- (Permutation_length (entriesFor_perm u _ _ Hs)).
      rewrite (proj2 (newMap_entries (optionsOf p ++ res))).
      destruct (lastWithValue u (optionsOf p ++ res)); simpl; lia. }
  apply G. intros u. simpl. lia.
Qed.

Lemma options_deduplicated_witness :
  (List.length
     (entriesFor (JNum 1)
        (options (hook (run defaultConfig
                          [Lookup "a"; Settle 1 (Normal [apple; banana; apricot])]
                          initialWorld)))) <= 1)%nat.
Proof.
  exact (options_deduplicated plainHost_SortLaws defaultConfig
           [Lookup "a"; Settle 1 (Normal [apple; banana; apricot])] (JNum 1)).
Defined.

(* ------------------------------------------------------------------ *)
(** * The outcomes of a lookup and of a settling *)

Lemma filterOptions_Normal {JS : Host} (cfg : Config) (keyword : string) (l m : list Obj) :
  filterOptions cfg keyword l = Normal m -> m = filter (matchesb cfg keyword) l.
Proof.
  revert m. induction l as [|ele l IH]; simpl; intros m H.
  - now inversion H.
  - unfold matchesb at 1.
    destruct (matchesKeyword cfg keyword ele) as [b|e]; simpl in *; [|discriminate].
    destruct (filterOptions cfg keyword l) as [t|e]; simpl in H; [|discriminate].
    inversion H; subst. rewrite (IH t eq_refl). reflexivity.
Qed.

Lemma getOptions_outcome {JS : Host} (cfg : Config) (opts : list Obj)
  (keyword : string) (w : World) :
  let w' := orElse (getOptions cfg opts keyword w) w in
  w' = w \/
  w' = getOptionsFromAPI cfg opts keyword w \/
  exists matched,
    filterOptions cfg keyword opts = Normal matched /\
    w' = withHook (setSearchGuard emptyGuard
                     (setIsLoading false (setFilteredOptions matched (hook w)))) w.
Proof.
  unfold getOptions, filterOptionsLocally. simpl.
  destruct (Nat.ltb 0 (List.length opts)); simpl; [|now right; left].
  destruct (filterOptions cfg keyword opts) as [matched|e]; simpl; [|now left].
  destruct (Nat.ltb 0 (List.length matched)); simpl; [right; right; eauto|].
  destruct (guardAllows _ _); simpl; [now right; left|now left].
Qed.

Lemma getOptionsFromAPI_filteredOptions {JS : Host} (cfg : Config)
  (opts : list Obj) (keyword : string) (w : World) :
  filteredOptions (hook (getOptionsFromAPI cfg opts keyword w)) =
  filteredOptions (hook w).
Proof.
  unfold getOptionsFromAPI. simpl.
  destruct (APIService cfg && guardAllows _ _)%bool; simpl; [reflexivity|].
  rewrite Nat.eqb_refl. reflexivity.
Qed.

(** The three ways the continuation can leave the hook: untouched (stale,
    rejected, or the filter threw), with an empty response stored, or with
    a merge stored. *)
Lemma afterAwait_outcome {JS : Host} (cfg : Config) (p : Pending)
  (r : Completion (list Obj)) (h : Hook) :
  let h' := orElse (afterAwait cfg p r h) h in
  h' = h \/
  (currentRequest p = requestCounter h /\
   h' = setIsLoading false
          (setSearchGuard (armedGuard (keywordOf p)) (setFilteredOptions [] h))) \/
  (currentRequest p = requestCounter h /\
   exists res sorted m,
     r = Normal res /\
     sortArray (uniqueByValue (optionsOf p ++ res)) = Normal sorted /\
     filterOptions cfg (keywordOf p) sorted = Normal m /\
     h' = {| options := sorted; filteredOptions := m; isLoading := false;
             searchGuard := emptyGuard; requestCounter := requestCounter h |}).
Proof.
  unfold afterAwait. destruct r as [res|e]; simpl; [|now left].
  destruct (Nat.eqb_spec (currentRequest p) (requestCounter h)) as [E|E];
    simpl; [|now left].
  destruct (Nat.ltb 0 (List.length res)); simpl.
  - destruct (sortArray _) as [s|e] eqn:Hs; simpl; [|now left].
    destruct (filterOptions _ _ _) as [f|e] eqn:Hf; simpl; [|now left].
    right. right. split; [exact E|]. exists res, s, f.
    rewrite E, Nat.eqb_refl. auto.
  - right. left. split; [exact E|]. rewrite E, Nat.eqb_refl. reflexivity.
Qed.

(* ------------------------------------------------------------------ *)
(** * What is shown is part of what is cached *)

Lemma filter_none {A : Type} (l : list A) : filter (fun _ => false) l = [].
Proof. induction l; simpl; auto. Qed.

(** When every lookup comes from the latest render, [filteredOptions] is
    at all times [options] with some of its entries left out, in the same
    order. *)
Theorem filteredOptions_filter_of_options {JS : Host} (cfg : Config)
  (evs : list Event) :
  Forall freshEvent evs ->
  exists f : Obj -> bool,
    filteredOptions (hook (run cfg evs initialWorld)) =
    filter f (options (hook (run cfg evs initialWorld))).
Proof.
  assert (G : forall w,
             (exists f, filteredOptions (hook w) = filter f (options (hook w))) ->
             Forall freshEvent evs ->
             exists f, filteredOptions (hook (run cfg evs w)) =
                       filter f (options (hook (run cfg evs w)))).
  { induction evs as [|ev evs IH]; simpl; intros w Hw Hevs; [exact Hw|].
    inversion Hevs as [|? ? Hev Hevs']; subst. apply IH; [|exact Hevs'].
    destruct ev as [keyword|opts keyword|request r]; simpl; [| contradiction |].
    - destruct (getOptions_outcome cfg (options (hook w)) keyword w)
        as [E|[E|[m [Hm E]]]]; simpl in E; rewrite E.
      + exact Hw.
      + rewrite getOptionsFromAPI_filteredOptions, getOptionsFromAPI_options. exact Hw.
      + simpl. exists (matchesb cfg keyword). now apply filterOptions_Normal.
    - destruct (find (isRequest request) (pending w)) as [p|]; [|exact Hw].
      simpl.
      destruct (afterAwait_outcome cfg p r (hook w))
        as [E|[[_ E]|[_ [res [s [m [_ [_ [Hm E]]]]]]]]]; simpl in E; rewrite E.
      + exact Hw.
      + simpl. exists (fun _ => false). symmetry. apply filter_none.
      + simpl. exists (matchesb cfg (keywordOf p)). now apply filterOptions_Normal. }
  apply G. exists (fun _ => true). reflexivity.
Qed.

Lemma filteredOptions_filter_of_options_witness :
  Forall freshEvent [Lookup ""; Settle 1 (Normal [banana; apple]); Lookup "an"] /\
  exists f : Obj -> bool,
    filteredOptions
      (hook (run defaultConfig [Lookup ""; Settle 1 (Normal [banana; apple]); Lookup "an"]
               initialWorld)) =
    filter f
      (options
         (hook (run defaultConfig [Lookup ""; Settle 1 (Normal [banana; apple]); Lookup "an"]
                  initialWorld))).
Proof.
  assert (H : Forall freshEvent
                [Lookup ""; Settle 1 (Normal [banana; apple]); Lookup "an"])
    by (repeat constructor).
  split; [exact H|].
  exact (filteredOptions_filter_of_options defaultConfig _ H).
Defined.

(* ------------------------------------------------------------------ *)
(** * The cache does not shrink under fresh lookups *)

Lemma step_closuresCurrent {JS : Host} (cfg : Config) (w : World) (ev : Event) :
  freshEvent ev -> pendingBounded w -> closuresCurrent w ->
  closuresCurrent (step cfg w ev).
Proof.
  unfold closuresCurrent. intros Hev HB HC.
  destruct ev as [keyword|opts keyword|request r]; simpl; [| contradiction |].
  - destruct (getOptions_outcome cfg (options (hook w)) keyword w)
      as [E|[E|[m [_ E]]]]; simpl in E; rewrite E.
    + exact HC.
    + intros p Hp. rewrite getOptionsFromAPI_requestCounter, getOptionsFromAPI_options.
      apply getOptionsFromAPI_pending in Hp. destruct Hp as [Hp|[Ho _]]; [|auto].
      specialize (HB p Hp). lia.
    + simpl. exact HC.
  - destruct (find (isRequest request) (pending w)) as [p|] eqn:F; [|exact HC].
    apply find_some in F. destruct F as [Hp Hreq]. unfold isRequest in Hreq.
    apply Nat.eqb_eq in Hreq. simpl. intros q Hq.
    apply filter_In in Hq. destruct Hq as [Hq Hn].
    destruct (afterAwait_outcome cfg p r (hook w))
      as [E|[[_ E]|[Hcur [res [s [m [_ [_ [_ E]]]]]]]]]; simpl in E; rewrite E; simpl.
    + now apply HC.
    + now apply HC.
    + intros Hc. exfalso. unfold isRequest in Hn.
      apply Bool.negb_true_iff, Nat.eqb_neq in Hn. congruence.
Qed.

Lemma step_keeps_values {JS : Host} {L : SortLaws JS} (cfg : Config) (w : World)
  (ev : Event) (v : JSValue) :
  freshEvent ev -> closuresCurrent w ->
  carriesValue (options (hook w)) v ->
  carriesValue (options (hook (step cfg w ev))) v.
Proof.
  intros Hev HC Hv.
  destruct ev as [keyword|opts keyword|request r]; simpl; [| contradiction |].
  - destruct (getOptions_outcome cfg (options (hook w)) keyword w)
      as [E|[E|[m [_ E]]]]; simpl in E; rewrite E; simpl; auto.
    now rewrite getOptionsFromAPI_options.
  - destruct (find (isRequest request) (pending w)) as [p|] eqn:F; [|exact Hv].
    apply find_some in F. destruct F as [Hp _]. simpl.
    destruct (afterAwait_outcome cfg p r (hook w))
      as [E|[[_ E]|[Hcur [res [s [m [_ [Hs [_ E]]]]]]]]]; simpl in E; rewrite E; simpl;
      auto.
    destruct Hv as [y0 [Hy0 Hv0]].
    assert (Hm : In y0 (optionsOf p ++ res)).
    { apply in_or_app. left. now rewrite (HC p Hp Hcur). }
    destruct (lastWithValue_found v _ y0 Hm Hv0) as [y [Hy [_ Hvy]]].
    exists y. split; [|exact Hvy].
    eapply Permutation_in; [eapply sort_permutes; exact Hs|].
    assert (Hin : In y (entriesFor v (uniqueByValue (optionsOf p ++ res)))).
    { rewrite (proj2 (newMap_entries (optionsOf p ++ res))), Hy. simpl. auto. }
    apply filter_In in Hin. tauto.
Qed.

Lemma run_closuresCurrent {JS : Host} (cfg : Config) (evs : list Event) (w : World) :
  Forall freshEvent evs -> pendingBounded w -> closuresCurrent w ->
  closuresCurrent (run cfg evs w).
Proof.
  revert w. induction evs as [|ev evs IH]; simpl; intros w Hevs HB HC; [exact HC|].
  inversion Hevs; subst.
  apply IH; [assumption|now apply step_pendingBounded|now apply step_closuresCurrent].
Qed.

(** When every lookup comes from the latest render, a merge starts from
    the options of the state, so that a value that is in [options] once
    stays in it for good (under the same or a later entry).  The sort of
    the engine returns the elements it is given. *)
Theorem options_keep_their_values {JS : Host} (L : SortLaws JS) (cfg : Config)
  (evs0 evs : list Event) (x : Obj) :
  Forall freshEvent evs0 ->
  Forall freshEvent evs ->
  In x (options (hook (run cfg evs0 initialWorld))) ->
  carriesValue (options (hook (run cfg evs (run cfg evs0 initialWorld)))) (value x).
Proof.
  intros H0 H1 Hx.
  assert (G : forall w, Forall freshEvent evs -> pendingBounded w -> closuresCurrent w ->
                        carriesValue (options (hook w)) (value x) ->
                        carriesValue (options (hook (run cfg evs w))) (value x)).
  { clear H0 H1 Hx. induction evs as [|ev evs IH]; simpl; intros w Hevs HB HC Hv;
      [exact Hv|].
    inversion Hevs; subst. apply IH; auto.
    - now apply step_pendingBounded.
    - now apply step_closuresCurrent.
    - now apply step_keeps_values. }
  apply G; auto.
  - apply run_pendingBounded, initialWorld_pendingBounded.
  - apply run_closuresCurrent; auto; [apply initialWorld_pendingBounded|].
    intros p [].
  - exists x. split; [exact Hx|]. apply sameValueZero_refl.
Qed.

Lemma options_keep_their_values_witness :
  Forall freshEvent [Lookup ""; Settle 1 (Normal [apple; banana])] /\
  Forall freshEvent [Lookup "zz"; Settle 2 (Normal [pizza; apricot])] /\
  In apple (options (hook (run defaultConfig [Lookup ""; Settle 1 (Normal [apple; banana])]
                             initialWorld))) /\
  carriesValue
    (options (hook (run defaultConfig [Lookup "zz"; Settle 2 (Normal [pizza; apricot])]
                      (run defaultConfig [Lookup ""; Settle 1 (Normal [apple; banana])]
                         initialWorld))))
    (value apple).
Proof.
  assert (H0 : Forall freshEvent [Lookup ""; Settle 1 (Normal [apple; banana])])
    by (repeat constructor).
  assert (H1 : Forall freshEvent [Lookup "zz"; Settle 2 (Normal [pizza; apricot])])
    by (repeat constructor).
  assert (Hx : In apple
                 (options (hook (run defaultConfig
                                   [Lookup ""; Settle 1 (Normal [apple; banana])]
                                   initialWorld))))
    by (simpl; auto).
  split; [exact H0|]. split; [exact H1|]. split; [exact Hx|].
  exact (options_keep_their_values plainHost_SortLaws defaultConfig _ _ apple H0 H1 Hx).
Defined.

(* ------------------------------------------------------------------ *)
(** * The debounced lookup *)

Lemma find_app_last {A : Type} (f : A -> bool) (l : list A) (x : A) :
  (forall y, In y l -> f y = false) -> f x = true -> find f (l ++ [x]) = Some x.
Proof.
  intros Hl Hx. induction l as [|a l IH]; simpl.
  - now rewrite Hx.
  - rewrite (Hl a) by (simpl; auto). apply IH. intros y Hy. apply Hl. simpl. auto.
Qed.

(** The debounced lookup runs with the closure of the first render, whose
    [options] is empty.  It never filters the cache: it goes to
    [getOptionsFromAPI], and when its call of the service is answered with
    a non-empty response the new [options] is made of the response alone.
    What was cached and is not in the response is gone.  (The response is
    stored when neither the filter nor the comparator throws on it, and
    the sort of the engine returns the elements it is given.) *)
Theorem debounced_lookup_replaces_options {JS : Host} (L : SortLaws JS) (cfg : Config)
  (keyword : string) (w : World) (res : list Obj) :
  APIService cfg = true ->
  guardAllows (searchGuard (hook w)) keyword = true ->
  pendingBounded w ->
  res <> [] ->
  Forall (readable cfg keyword) res ->
  Forall printable res ->
  debouncedGetOptions cfg keyword w = Normal (getOptionsFromAPI cfg [] keyword w) /\
  calls (getOptionsFromAPI cfg [] keyword w) = calls w ++ [makePayload cfg keyword] /\
  Permutation (uniqueByValue res)
    (options (hook (step cfg (getOptionsFromAPI cfg [] keyword w)
                      (Settle (S (requestCounter (hook w))) (Normal res))))) /\
  (forall x,
      In x (options (hook (step cfg (getOptionsFromAPI cfg [] keyword w)
                             (Settle (S (requestCounter (hook w))) (Normal res))))) ->
      In x res).
Proof.
  intros HS HG HB Hres Hread Hprint.
  split; [reflexivity|].
  rewrite (getOptionsFromAPI_called cfg [] keyword w HS HG).
  split; [reflexivity|].
  set (p := {| keywordOf := keyword; optionsOf := [];
               currentRequest := S (requestCounter (hook w)) |}).
  assert (F : find (isRequest (S (requestCounter (hook w)))) (pending w ++ [p]) = Some p).
  { apply find_app_last.
    - intros q Hq. unfold isRequest. apply Nat.eqb_neq. specialize (HB q Hq). lia.
    - unfold isRequest. simpl. apply Nat.eqb_refl. }
  cbn [step pending hook calls]. rewrite F.
  destruct (afterAwait_merge cfg p res
              (setRequestCounter (S (requestCounter (hook w)))
                 (setIsLoading true (hook w))) eq_refl Hres Hread Hprint)
    as [sorted [_ [Hp Ha]]].
  rewrite Ha. simpl. split; [exact Hp|].
  intros x Hx. apply (uniqueByValue_incl res).
  eapply Permutation_in; [apply Permutation_sym, Hp|exact Hx].
Qed.

Lemma debounced_lookup_replaces_options_witness :
  APIService defaultConfig = true /\
  guardAllows (searchGuard (hook cachedWorld)) "zz" = true /\
  pendingBounded cachedWorld /\
  [pizza] <> [] /\
  Forall (readable defaultConfig "zz") [pizza] /\
  Forall printable [pizza] /\
  debouncedGetOptions defaultConfig "zz" cachedWorld =
  Normal (getOptionsFromAPI defaultConfig [] "zz" cachedWorld) /\
  calls (getOptionsFromAPI defaultConfig [] "zz" cachedWorld) =
  calls cachedWorld ++ [makePayload defaultConfig "zz"] /\
  Permutation (uniqueByValue [pizza])
    (options (hook (step defaultConfig (getOptionsFromAPI defaultConfig [] "zz" cachedWorld)
                      (Settle (S (requestCounter (hook cachedWorld))) (Normal [pizza]))))) /\
  (forall x,
      In x (options (hook (step defaultConfig
                             (getOptionsFromAPI defaultConfig [] "zz" cachedWorld)
                             (Settle (S (requestCounter (hook cachedWorld)))
                                (Normal [pizza]))))) ->
      In x [pizza]).
Proof.
  assert (HB : pendingBounded cachedWorld) by (intros p []).
  assert (Hne : [pizza] <> []) by discriminate.
  assert (Hr : Forall (readable defaultConfig "zz") [pizza]).
  { repeat (apply Forall_cons; [right; discriminate|]). apply Forall_nil. }
  split; [reflexivity|]. split; [reflexivity|]. split; [exact HB|].
  assert (Hp : Forall printable [pizza]).
  { repeat (apply Forall_cons; [exact I|]). apply Forall_nil. }
  split; [exact Hne|]. split; [exact Hr|]. split; [exact Hp|].
  exact (debounced_lookup_replaces_options plainHost_SortLaws defaultConfig "zz"
           cachedWorld [pizza] eq_refl eq_refl HB Hne Hr Hp).
Defined.

(** With ["Apple"] and ["Banana"] cached, a debounced lookup of ["ap"]
    calls the service although ["Apple"] matches, and its response is all
    that is left of the cache. *)
Example debounced_lookup_drops_the_cache :
  calls (orElse (debouncedGetOptions defaultConfig "ap" cachedWorld) cachedWorld) =
  [PKeyword "ap"] /\
  options (hook (step defaultConfig
                   (orElse (debouncedGetOptions defaultConfig "ap" cachedWorld) cachedWorld)
                   (Settle 1 (Normal [apricot])))) = [apricot].
Proof. split; reflexivity. Qed.

(* ------------------------------------------------------------------ *)
(** * A blocked prefix stays blocked *)

Lemma startsWith_empty (keyword : string) : startsWith keyword "" = true.
Proof. unfold startsWith. now destruct keyword. Qed.

Lemma step_deadPrefix {JS : Host} (cfg : Config) (K : string) (w : World)
  (ev : Event) :
  deadPrefix K w -> blockedEvent K ev ->
  deadPrefix K (step cfg w ev) /\ calls (step cfg w ev) = calls w.
Proof.
  intros [HO [HG HP]] Hev.
  assert (Hlook : forall keyword,
             startsWith keyword K = true ->
             deadPrefix K (orElse (getOptions cfg [] keyword w) w) /\
             calls (orElse (getOptions cfg [] keyword w) w) = calls w).
  { intros keyword HK. unfold getOptions. simpl.
    assert (Hb : guardAllows (searchGuard (hook w)) keyword = false).
    { rewrite HG. unfold guardAllows. simpl. now rewrite HK. }
    rewrite getOptionsFromAPI_not_called by (rewrite Hb; apply Bool.andb_false_r).
    unfold deadPrefix. simpl. repeat split; auto.
    intros p Hp. specialize (HP p Hp). lia. }
  destruct ev as [keyword|opts keyword|request r]; simpl in *.
  - rewrite HO. now apply Hlook.
  - destruct Hev as [-> HK]. now apply Hlook.
  - destruct (find (isRequest request) (pending w)) as [p|] eqn:F;
      [|split; [now repeat split|reflexivity]].
    apply find_some in F. destruct F as [Hp _]. simpl.
    rewrite afterAwait_stale by (specialize (HP p Hp); lia).
    split; [|reflexivity]. unfold deadPrefix. simpl. repeat split; auto.
    intros q Hq. apply filter_In in Hq. now apply HP.
Qed.

Lemma run_deadPrefix {JS : Host} (cfg : Config) (K : string) (evs : list Event)
  (w : World) :
  deadPrefix K w -> Forall (blockedEvent K) evs ->
  deadPrefix K (run cfg evs w) /\ calls (run cfg evs w) = calls w.
Proof.
  revert w. induction evs as [|ev evs IH]; simpl; intros w Hw Hevs; [auto|].
  inversion Hevs as [|? ? Hev Hevs']; subst.
  destruct (step_deadPrefix cfg K w ev Hw Hev) as [Hd Hc].
  destruct (IH _ Hd Hevs') as [Hd' Hc']. split; [exact Hd'|congruence].
Qed.

(** While the cache is empty and the guard is armed with [K], lookups of
    keywords that start with [K] change neither: however many follow, the
    service is not called and the guard stays armed.  A blocked lookup
    does not clear the guard. *)
Theorem blocked_prefix_stays_blocked {JS : Host} (cfg : Config) (K : string)
  (evs : list Event) (w : World) :
  deadPrefix K w ->
  Forall (blockedEvent K) evs ->
  calls (run cfg evs w) = calls w /\
  searchGuard (hook (run cfg evs w)) = armedGuard K /\
  options (hook (run cfg evs w)) = [].
Proof.
  intros Hw Hevs.
  destruct (run_deadPrefix cfg K evs w Hw Hevs) as [[HO [HG _]] Hc]. auto.
Qed.

Lemma blocked_prefix_stays_blocked_witness :
  deadPrefix "ab" armedWorld /\
  Forall (blockedEvent "ab") [Lookup "abc"; Lookup "abcd"; LookupFrom [] "ab"] /\
  calls (run defaultConfig [Lookup "abc"; Lookup "abcd"; LookupFrom [] "ab"] armedWorld) =
  calls armedWorld /\
  searchGuard (hook (run defaultConfig [Lookup "abc"; Lookup "abcd"; LookupFrom [] "ab"]
                       armedWorld)) = armedGuard "ab" /\
  options (hook (run defaultConfig [Lookup "abc"; Lookup "abcd"; LookupFrom [] "ab"]
                   armedWorld)) = [].
Proof.
  assert (Hw : deadPrefix "ab" armedWorld).
  { split; [reflexivity|]. split; [reflexivity|]. intros p []. }
  assert (Hevs : Forall (blockedEvent "ab")
                   [Lookup "abc"; Lookup "abcd"; LookupFrom [] "ab"]).
  { repeat constructor. }
  split; [exact Hw|]. split; [exact Hevs|].
  exact (blocked_prefix_stays_blocked defaultConfig "ab" _ armedWorld Hw Hevs).
Defined.

(** Once the service has answered the empty keyword with nothing while the
    cache was empty, the guard is armed with the empty string, which every
    keyword starts with: no later lookup calls the service, whatever its
    keyword. *)
Theorem empty_guard_blocks_everything {JS : Host} (cfg : Config)
  (evs : list Event) (w : World) :
  deadPrefix "" w ->
  Forall freshEvent evs ->
  calls (run cfg evs w) = calls w /\
  options (hook (run cfg evs w)) = [].
Proof.
  intros Hw Hevs.
  assert (Hb : Forall (blockedEvent "") evs).
  { eapply Forall_impl; [|exact Hevs]. intros [keyword|opts keyword|request r] H;
      simpl in *; auto using startsWith_empty. contradiction. }
  destruct (run_deadPrefix cfg "" evs w Hw Hb) as [[HO _] Hc]. auto.
Qed.

Lemma empty_guard_blocks_everything_witness :
  deadPrefix "" (run defaultConfig [Lookup ""; Settle 1 (Normal [])] initialWorld) /\
  Forall freshEvent [Lookup "apple"; Lookup "b"; Lookup ""] /\
  calls (run defaultConfig [Lookup "apple"; Lookup "b"; Lookup ""]
           (run defaultConfig [Lookup ""; Settle 1 (Normal [])] initialWorld)) =
  calls (run defaultConfig [Lookup ""; Settle 1 (Normal [])] initialWorld) /\
  options (hook (run defaultConfig [Lookup "apple"; Lookup "b"; Lookup ""]
                   (run defaultConfig [Lookup ""; Settle 1 (Normal [])] initialWorld))) = [].
Proof.
  assert (Hw : deadPrefix ""
                 (run defaultConfig [Lookup ""; Settle 1 (Normal [])] initialWorld)).
  { split; [reflexivity|]. split; [reflexivity|]. intros p []. }
  assert (Hevs : Forall freshEvent [Lookup "apple"; Lookup "b"; Lookup ""])
    by (repeat constructor).
  split; [exact Hw|]. split; [exact Hevs|].
  exact (empty_guard_blocks_everything defaultConfig _ _ Hw Hevs).
Defined.

(* ------------------------------------------------------------------ *)
(** * A local hit opens the guard *)

(** Any lookup that is answered from the cache clears the guard.  The
    next lookup that finds nothing in the cache calls the service, even
    with a keyword that starts with the one the guard was armed with. *)
Theorem local_hit_reopens_prefix {JS : Host} (cfg : Config) (opts matched : list Obj)
  (keyword1 keyword2 K : string) (w : World) :
  searchGuard (hook w) = armedGuard K ->
  APIService cfg = true ->
  filterOptions cfg keyword1 opts = Normal matched ->
  matched <> [] ->
  filterOptions cfg keyword2 opts = Normal [] ->
  searchGuard (hook (step cfg w (LookupFrom opts keyword1))) = emptyGuard /\
  calls (run cfg [LookupFrom opts keyword1; LookupFrom opts keyword2] w) =
  calls w ++ [makePayload cfg keyword2].
Proof.
  intros HG HS H1 Hm H2.
  assert (E : step cfg w (LookupFrom opts keyword1) =
              withHook (setSearchGuard emptyGuard
                          (setIsLoading false
                             (setFilteredOptions matched (hook w)))) w).
  { simpl. now rewrite (getOptions_answers_locally cfg opts matched keyword1 w H1 Hm). }
  split; [now rewrite E|].
  cbn [run fold_left]. rewrite E. simpl.
  unfold getOptions, filterOptionsLocally. rewrite H2. simpl.
  destruct (Nat.ltb 0 (List.length opts)); simpl;
    rewrite getOptionsFromAPI_called by auto; reflexivity.
Qed.

Lemma local_hit_reopens_prefix_witness :
  searchGuard (hook armedWithBanana) = armedGuard "ab" /\
  APIService defaultConfig = true /\
  filterOptions defaultConfig "b" [banana] = Normal [banana] /\
  [banana] <> [] /\
  filterOptions defaultConfig "abc" [banana] = Normal [] /\
  searchGuard (hook (step defaultConfig armedWithBanana (LookupFrom [banana] "b"))) =
  emptyGuard /\
  calls (run defaultConfig [LookupFrom [banana] "b"; LookupFrom [banana] "abc"]
           armedWithBanana) =
  calls armedWithBanana ++ [makePayload defaultConfig "abc"].
Proof.
  assert (Hne : [banana] <> []) by discriminate.
  split; [reflexivity|]. split; [reflexivity|]. split; [reflexivity|].
  split; [exact Hne|]. split; [reflexivity|].
  exact (local_hit_reopens_prefix defaultConfig [banana] [banana] "b" "abc" "ab"
           armedWithBanana eq_refl eq_refl eq_refl Hne eq_refl).
Defined.

(* ------------------------------------------------------------------ *)
(** * What the filter matches *)

(** The filter is case-insensitive in the keyword: two keywords with the
    same lower-case form (both empty or both not) select the same
    options, and throw on the same options. *)
Theorem filter_ignores_keyword_case {JS : Host} (cfg : Config)
  (keyword1 keyword2 : string) (l : list Obj) :
  toLowerCase keyword1 = toLowerCase keyword2 ->
  (keyword1 = "" <-> keyword2 = "") ->
  filterOptions cfg keyword1 l = filterOptions cfg keyword2 l.
Proof.
  intros H He.
  assert (Ht : truthy (JStr keyword1) = truthy (JStr keyword2)).
  { simpl. destruct (String.eqb_spec keyword1 ""), (String.eqb_spec keyword2 "");
      tauto. }
  assert (Hm : forall ele, matchesKeyword cfg keyword1 ele = matchesKeyword cfg keyword2 ele).
  { intros ele. unfold matchesKeyword, hasKeyword. rewrite Ht.
    destruct (truthy (JStr keyword2)); [|reflexivity].
    destruct (objectValues _) as [vs|e]; simpl; [|reflexivity].
    assert (Hv : existsb (valueHasKeyword keyword1) vs =
                 existsb (valueHasKeyword keyword2) vs).
    { induction vs as [|v vs IHvs]; simpl; [reflexivity|].
      rewrite IHvs. f_equal. unfold valueHasKeyword. now rewrite H. }
    now rewrite Hv. }
  induction l as [|ele l IH]; simpl; [reflexivity|]. now rewrite Hm, IH.
Qed.

Lemma filter_ignores_keyword_case_witness :
  toLowerCase "AP" = toLowerCase "ap" /\
  ("AP" = "" <-> "ap" = "") /\
  filterOptions defaultConfig "AP" [apple; banana] =
  filterOptions defaultConfig "ap" [apple; banana].
Proof.
  assert (He : "AP" = "" <-> "ap" = "") by (split; discriminate).
  split; [reflexivity|]. split; [exact He|].
  exact (filter_ignores_keyword_case defaultConfig "AP" "ap" [apple; banana] eq_refl He).
Defined.

(** Without [customDataName] and with a non-empty keyword, an option is
    selected exactly when its [value] or its [label] is a string that
    contains the keyword, case-insensitively.  A number is never
    searched, and no other property is. *)
Theorem default_filter_reads_value_and_label {JS : Host} (cfg : Config) (keyword : string)
  (l : list Obj) :
  customDataName cfg = None ->
  keyword <> "" ->
  exists m,
    filterOptions cfg keyword l = Normal m /\
    forall ele, In ele m <-> In ele l /\ valueOrLabelContains keyword ele.
Proof.
  intros HD Hk.
  assert (Hsel : Forall (readable cfg keyword) l).
  { apply Forall_forall. intros ele _. right. now apply selectable_default. }
  exists (filter (matchesb cfg keyword) l).
  split; [now apply filterOptions_returns|].
  intros ele. rewrite filter_In.
  assert (Hiff : matchesb cfg keyword ele = true <-> valueOrLabelContains keyword ele).
  { rewrite (matchesb_Matches cfg keyword ele Hk (selectable_default cfg ele HD)).
    unfold Matches, valueOrLabelContains, searchedStrings, selected. rewrite HD. simpl.
    split.
    - intros [s [Hin Hs]]. exists s. split; [|exact Hs].
      apply in_app_or in Hin. destruct Hin as [Hin|Hin].
      + left. destruct (value ele); simpl in Hin; try contradiction.
        destruct Hin as [->|[]]. reflexivity.
      + right. rewrite app_nil_r in Hin.
        destruct (label ele); simpl in Hin; try contradiction.
        destruct Hin as [->|[]]. reflexivity.
    - intros [s [[Hv|Hl] Hs]]; exists s; (split; [|exact Hs]); apply in_or_app.
      + left. rewrite Hv. simpl. auto.
      + right. rewrite Hl. simpl. auto. }
  tauto.
Qed.

Lemma default_filter_reads_value_and_label_witness :
  customDataName defaultConfig = None /\
  "42" <> "" /\
  exists m,
    filterOptions defaultConfig "42" [numbered; appleWithNote] = Normal m /\
    forall ele, In ele m <->
                In ele [numbered; appleWithNote] /\ valueOrLabelContains "42" ele.
Proof.
  assert (Hk : "42" <> "") by discriminate.
  split; [reflexivity|]. split; [exact Hk|].
  exact (default_filter_reads_value_and_label defaultConfig "42"
           [numbered; appleWithNote] eq_refl Hk).
Defined.

(** An option whose [value] and [label] are the number 42 is not found by
    the keyword ["42"]. *)
Example numbers_are_not_searched :
  filterOptions defaultConfig "42" [numbered] = Normal [].
Proof. reflexivity. Qed.

(* ------------------------------------------------------------------ *)
(** * A string selected by [customDataName] *)

Lemma prefix_length (p s : string) :
  String.prefix p s = true -> (String.length p <= String.length s)%nat.
Proof.
  revert p. induction s as [|d s IH]; intros p H; destruct p as [|c p];
    simpl in *; try lia; try discriminate.
  destruct (ascii_dec c d); [|discriminate]. apply IH in H. lia.
Qed.

Lemma includes_length (s sub : string) :
  includes s sub = true -> (String.length sub <= String.length s)%nat.
Proof.
  induction s as [|c s IH]; cbn [includes]; intros H.
  - rewrite Bool.orb_false_r in H. now apply prefix_length in H.
  - apply Bool.orb_true_iff in H. destruct H as [H|H].
    + now apply prefix_length in H.
    + apply IH in H. simpl. lia.
Qed.

Lemma chars_never_match {JS : Host} (keyword s : string) :
  charactersShorter keyword s ->
  existsb (valueHasKeyword keyword) (chars s) = false.
Proof.
  unfold charactersShorter.
  induction s as [|c s IH]; cbn [chars existsb]; intros H; [reflexivity|].
  inversion H as [|? ? Hc Hs]; subst.
  rewrite (IH Hs), Bool.orb_false_r. unfold valueHasKeyword.
  destruct (includes (toLowerCase (String c "")) (toLowerCase keyword)) eqn:E;
    [|reflexivity].
  apply includes_length in E. lia.
Qed.

(** When [customDataName] names a property that holds a string, the
    filter searches the characters of that string one by one
    ([Object.values] of a string): a keyword whose lower-case form is
    longer than the lower-case form of each single character matches no
    such option, although the string may contain the keyword. *)
Theorem string_property_matches_no_word {JS : Host} (cfg : Config) (keyword s : string)
  (ele : Obj) :
  selected cfg ele = JStr s ->
  keyword <> "" ->
  charactersShorter keyword s ->
  matchesKeyword cfg keyword ele = Normal false.
Proof.
  intros Hs Hk Hc. unfold matchesKeyword, hasKeyword. rewrite Hs.
  assert (Ht : truthy (JStr keyword) = true).
  { destruct keyword; simpl in *; [contradiction|reflexivity]. }
  rewrite Ht. simpl. now rewrite chars_never_match.
Qed.

Lemma string_property_matches_no_word_witness :
  selected labelConfig apple = JStr "Apple" /\
  "ap" <> "" /\
  charactersShorter "ap" "Apple" /\
  includes (toLowerCase "Apple") (toLowerCase "ap") = true /\
  matchesKeyword labelConfig "ap" apple = Normal false.
Proof.
  assert (Hk : "ap" <> "") by discriminate.
  assert (Hc : charactersShorter "ap" "Apple").
  { unfold charactersShorter. simpl. repeat constructor. }
  split; [reflexivity|]. split; [exact Hk|]. split; [exact Hc|]. split; [reflexivity|].
  exact (string_property_matches_no_word labelConfig "ap" "Apple" apple eq_refl Hk Hc).
Defined.

(** With [customDataName = "label"] the cached ["Apple"] is not found by
    ["ap"], and the keyword goes to the service. *)
Example label_as_customDataName :
  calls (step labelConfig cachedWorld (Lookup "ap")) = [PKeyword "ap"].
Proof. reflexivity. Qed.

(* ------------------------------------------------------------------ *)
(** * A [null] selected by [customDataName] *)

Lemma matchesKeyword_null {JS : Host} (cfg : Config) (keyword : string) (ele : Obj) :
  selected cfg ele = JNull -> keyword <> "" ->
  matchesKeyword cfg keyword ele = Throw TypeError.
Proof.
  intros Hs Hk. unfold matchesKeyword, hasKeyword. rewrite Hs.
  destruct keyword; [contradiction|reflexivity].
Qed.

Lemma matchesKeyword_TypeError {JS : Host} (cfg : Config) (keyword : string) (ele : Obj) (e : Error) :
  matchesKeyword cfg keyword ele = Throw e -> e = TypeError.
Proof.
  unfold matchesKeyword, hasKeyword.
  destruct (truthy (JStr keyword)); [|discriminate].
  destruct (selected cfg ele); simpl; try discriminate; now intros [= <-].
Qed.

Lemma filterOptions_TypeError {JS : Host} (cfg : Config) (keyword : string) (l : list Obj) (e : Error) :
  filterOptions cfg keyword l = Throw e -> e = TypeError.
Proof.
  induction l as [|ele l IH]; simpl; [discriminate|].
  destruct (matchesKeyword cfg keyword ele) as [b|e0] eqn:E; simpl.
  - destruct (filterOptions cfg keyword l) as [t|e1]; simpl; [discriminate|].
    intros [= <-]. now apply IH.
  - intros [= <-]. now apply matchesKeyword_TypeError in E.
Qed.

Lemma filterOptions_throws {JS : Host} (cfg : Config) (keyword : string) (l : list Obj) (x : Obj) :
  In x l -> selected cfg x = JNull -> keyword <> "" ->
  filterOptions cfg keyword l = Throw TypeError.
Proof.
  intros Hin Hs Hk. induction l as [|ele l IH]; simpl; [contradiction|].
  destruct (matchesKeyword cfg keyword ele) as [b|e] eqn:E; simpl.
  - destruct Hin as [->|Hin].
    + rewrite (matchesKeyword_null cfg keyword x Hs Hk) in E. discriminate.
    + now rewrite (IH Hin).
  - f_equal. now apply matchesKeyword_TypeError in E.
Qed.

(** One cached option whose [customDataName] property is [null] makes
    every lookup of a non-empty keyword throw a TypeError
    ([Object.values(null)]; the default [{}] of [hasKeyword] covers
    [undefined] only).  The exception comes before any assignment: the
    hook is left as it was and the service is not called. *)
Theorem null_property_breaks_local_filter {JS : Host} (cfg : Config)
  (opts : list Obj) (keyword : string) (w : World) (x : Obj) :
  In x opts ->
  selected cfg x = JNull ->
  keyword <> "" ->
  getOptions cfg opts keyword w = Throw TypeError /\
  step cfg w (LookupFrom opts keyword) = w.
Proof.
  intros Hin Hs Hk.
  assert (E : getOptions cfg opts keyword w = Throw TypeError).
  { unfold getOptions, filterOptionsLocally.
    destruct opts as [|o opts]; [contradiction|]. simpl Nat.ltb. cbv iota.
    now rewrite (filterOptions_throws cfg keyword (o :: opts) x Hin Hs Hk). }
  split; [exact E|]. simpl. now rewrite E.
Qed.

Lemma null_property_breaks_local_filter_witness :
  In appleNullMeta [fig; appleNullMeta] /\
  selected metaConfig appleNullMeta = JNull /\
  "fr" <> "" /\
  getOptions metaConfig [fig; appleNullMeta] "fr" initialWorld = Throw TypeError /\
  step metaConfig initialWorld (LookupFrom [fig; appleNullMeta] "fr") = initialWorld.
Proof.
  assert (Hin : In appleNullMeta [fig; appleNullMeta]) by (simpl; auto).
  assert (Hk : "fr" <> "") by discriminate.
  split; [exact Hin|]. split; [reflexivity|]. split; [exact Hk|].
  exact (null_property_breaks_local_filter metaConfig [fig; appleNullMeta] "fr"
           initialWorld appleNullMeta Hin eq_refl Hk).
Defined.

(** The same in the continuation of a call: when the response holds, as
    the last option with its value, an option whose [customDataName]
    property is [null], and the keyword is not empty, the filter throws
    before [setOptions] (unless the sort before it already threw, on a
    label with an own [toString]).  The response is lost, and [isLoading],
    set when the call was made, is not cleared.  The sort of the engine
    returns the elements it is given and throws only what the comparator
    throws. *)
Theorem null_property_loses_response {JS : Host} (L : SortLaws JS) (cfg : Config)
  (p : Pending)
  (res : list Obj) (h : Hook) (x : Obj) :
  currentRequest p = requestCounter h ->
  keywordOf p <> "" ->
  lastWithValue (value x) res = Some x ->
  selected cfg x = JNull ->
  afterAwait cfg p (Normal res) h = Throw TypeError /\
  orElse (afterAwait cfg p (Normal res) h) h = h.
Proof.
  intros Hcur Hk Hlast Hs.
  assert (Hx : In x res).
  { unfold lastWithValue in Hlast. apply find_some in Hlast.
    apply in_rev. tauto. }
  assert (E : afterAwait cfg p (Normal res) h = Throw TypeError).
  { unfold afterAwait. simpl. rewrite Hcur, Nat.eqb_refl. simpl.
    destruct res as [|r0 res]; [contradiction|]. simpl List.length. simpl Nat.ltb.
    cbv iota.
    destruct (sortArray (uniqueByValue (optionsOf p ++ r0 :: res)))
      as [sorted|e] eqn:Hsort; simpl;
      [|f_equal; now apply sortArray_TypeError in Hsort].
    assert (Hp := sort_permutes _ _ _ Hsort).
    assert (Hin : In x sorted).
    { eapply Permutation_in; [exact Hp|].
      assert (Hv : hasValue (value x) x = true) by apply sameValueZero_refl.
      assert (He : In x (entriesFor (value x) (uniqueByValue (optionsOf p ++ r0 :: res)))).
      { rewrite (proj2 (newMap_entries (optionsOf p ++ r0 :: res))).
        rewrite (lastWithValue_app _ _ _ _ Hx Hv), Hlast. simpl. auto. }
      apply filter_In in He. tauto. }
    now rewrite (filterOptions_throws cfg (keywordOf p) sorted x Hin Hs Hk). }
  split; [exact E|]. now rewrite E.
Qed.

Lemma null_property_loses_response_witness :
  currentRequest {| keywordOf := "fr"; optionsOf := []; currentRequest := 1 |} =
  requestCounter (setIsLoading true (setRequestCounter 1 initialHook)) /\
  "fr" <> "" /\
  lastWithValue (value appleNullMeta) [fig; appleNullMeta] = Some appleNullMeta /\
  selected metaConfig appleNullMeta = JNull /\
  afterAwait metaConfig {| keywordOf := "fr"; optionsOf := []; currentRequest := 1 |}
    (Normal [fig; appleNullMeta])
    (setIsLoading true (setRequestCounter 1 initialHook)) = Throw TypeError /\
  orElse (afterAwait metaConfig
            {| keywordOf := "fr"; optionsOf := []; currentRequest := 1 |}
            (Normal [fig; appleNullMeta])
            (setIsLoading true (setRequestCounter 1 initialHook)))
    (setIsLoading true (setRequestCounter 1 initialHook)) =
  setIsLoading true (setRequestCounter 1 initialHook).
Proof.
  assert (Hk : "fr" <> "") by discriminate.
  split; [reflexivity|]. split; [exact Hk|]. split; [reflexivity|]. split; [reflexivity|].
  exact (null_property_loses_response plainHost_SortLaws metaConfig
           {| keywordOf := "fr"; optionsOf := []; currentRequest := 1 |}
           [fig; appleNullMeta] (setIsLoading true (setRequestCounter 1 initialHook))
           appleNullMeta eq_refl Hk eq_refl eq_refl).
Defined.

(** On a run: the response with the [null] is dropped and the hook keeps
    loading. *)
Example null_property_on_a_run :
  hook (run metaConfig [Lookup "fr"; Settle 1 (Normal [fig; appleNullMeta])] initialWorld) =
  {| options := []; filteredOptions := []; isLoading := true;
     searchGuard := emptyGuard; requestCounter := 1 |}.
Proof. reflexivity. Qed.
